(** * Session and engine orchestration of the chess learning platform

    A shallow embedding of [chess_game.py] (class [ChessGame]), of the
    web handlers of [main.py] ([new_game], [make_move], [get_hint],
    [undo_move], [set_difficulty], [analyze_position],
    [get_coach_comment]) and of the parts of [chess_gui.py] that compute
    on the game (move list, take back, coach comment, the geometry of
    clicks and drawing).

    The rules of chess come from the python-chess library, which the
    program only calls.  They are a parameter of the development (class
    [RulesEngine]); the engine process, the clock and the random generator
    are inputs of each operation.  Every call to the engine, to the random
    generator and every lookup in the move cache is recorded in a trace, so
    that statements such as "the engine is not consulted" can be written. *)

From stdpp Require Import gmap strings list fin_maps pretty.
From Stdlib Require Import ZArith.

(** ** Data of the rules library *)

Inductive PieceType := PAWN | KNIGHT | BISHOP | ROOK | QUEEN | KING.
Inductive Color := BLACK | WHITE.
Record Piece := { piece_type : PieceType; color : Color }.

(** Squares are numbered 0 (a1) to 63 (h8). *)
Definition Square := nat.

Record Move := {
  from_square : Square;
  to_square : Square;
  promotion : option PieceType }.

#[global] Instance PieceType_eq_dec : EqDecision PieceType.
Proof. solve_decision. Defined.
#[global] Instance Color_eq_dec : EqDecision Color.
Proof. solve_decision. Defined.
#[global] Instance Piece_eq_dec : EqDecision Piece.
Proof. solve_decision. Defined.
#[global] Instance Move_eq_dec : EqDecision Move.
Proof. solve_decision. Defined.

Definition square_rank (sq : Square) : nat := Nat.div sq 8.
Definition square_file (sq : Square) : nat := Nat.modulo sq 8.

Definition FILE_NAMES : list string := ["a"; "b"; "c"; "d"; "e"; "f"; "g"; "h"]%string.
Definition RANK_NAMES : list string := ["1"; "2"; "3"; "4"; "5"; "6"; "7"; "8"]%string.

(** [SQUARE_NAMES = [f + r for r in RANK_NAMES for f in FILE_NAMES]] *)
Definition SQUARE_NAMES : list string :=
  r ← RANK_NAMES; f ← FILE_NAMES; [(f +:+ r)%string].

Definition square_name (sq : Square) : string :=
  default ""%string (SQUARE_NAMES !! sq).

Fixpoint index_of (x : string) (l : list string) : option nat :=
  match l with
  | [] => None
  | y :: l' => if decide (x = y) then Some 0%nat else S <$> index_of x l'
  end.

(** [chess.parse_square]: [None] stands for the [ValueError] it raises. *)
Definition parse_square (name : string) : option Square :=
  index_of name SQUARE_NAMES.

(** A board keeps, with the current position, the stack of the moves played
    and of the positions they were played in, as [chess.Board] does
    ([move_stack] and the saved states used by [pop]); the most recent move
    is at the head. *)
Record Board (Position : Type) := {
  position : Position;
  stack : list (Move * Position) }.
Arguments position {Position} _.
Arguments stack {Position} _.

Definition move_stack {Position} (b : Board Position) : list Move :=
  reverse (fst <$> stack b).

(** The operations of python-chess the program calls.  [san] is partial:
    python-chess raises when the move is not legal (or null) in the
    position, [None] stands for that. [is_game_over] reads the whole board
    because repetition draws depend on the moves played. *)
Class RulesEngine (Position : Type) := {
  start_position : Position;
  apply_move : Position → Move → Position;
  legal_moves : Position → list Move;
  piece_at : Position → Square → option Piece;
  turn : Position → Color;
  fen : Position → string;
  san : Position → Move → option string;
  is_capture : Position → Move → bool;
  is_check : Position → bool;
  is_checkmate : Position → bool;
  is_stalemate : Position → bool;
  is_game_over : Board Position → bool }.

(** Two more operations of python-chess, which only the coach comments
    call.  [parse_san] is partial: [None] stands for the [ValueError] it
    raises on a text that is no move of the position. *)
Class CoachRules (Position : Type) := {
  parse_san : Position → string → option Move;
  fullmove_number : Position → nat }.

(** [chess.E4], [chess.D4], [chess.E5], [chess.D5] *)
Definition E4 : Square := 28.
Definition D4 : Square := 27.
Definition E5 : Square := 36.
Definition D5 : Square := 35.

(** [sep.join(l)] *)
Fixpoint str_join (sep : string) (l : list string) : string :=
  match l with
  | [] => ""
  | [x] => x
  | x :: rest => x +:+ sep +:+ str_join sep rest
  end.

(** ** Exceptions, results and the state monad of the embedding *)

Inductive exn :=
  | EngineTerminatedError
  | EngineError
  | StockfishError (msg : string)
  | AssertionError
  | ValueError
  | IndexError
  | KeyError
  | AttributeError
  | OtherError.

Inductive result (A : Type) :=
  | Return (a : A)
  | Raise (e : exn).
Arguments Return {A} _.
Arguments Raise {A} _.

(** What the program asks of the outside world. *)
Inductive Event :=
  | EvPopen (path : string)
  | EvConfigure (options : list (string * Z))
  | EvPlay (position_fen : string)
  | EvAnalyse (position_fen : string)
  | EvCacheLookup (key : string)
  | EvRandom (choices : nat).

#[global] Instance Event_eq_dec : EqDecision Event.
Proof. solve_decision. Defined.

Record St (T : Type) := { obj : T; trace : list Event }.
Arguments obj {T} _.
Arguments trace {T} _.

Definition M (T A : Type) : Type := St T → result A * St T.

#[global] Instance M_ret {T} : MRet (M T) := λ A a s, (Return a, s).
#[global] Instance M_bind {T} : MBind (M T) := λ A B k m s,
  match m s with
  | (Return a, s') => k a s'
  | (Raise e, s') => (Raise e, s')
  end.
Definition raise {T A} (e : exn) : M T A := λ s, (Raise e, s).
Definition get {T} : M T T := λ s, (Return (obj s), s).
Definition put {T} (t : T) : M T unit :=
  λ s, (Return tt, {| obj := t; trace := trace s |}).
Definition emit {T} (e : Event) : M T unit :=
  λ s, (Return tt, {| obj := obj s; trace := trace s ++ [e] |}).
(** [try: m except h]: the handler sees the exception and the state left
    by [m]; returning [None] lets the exception through. *)
Definition try_except {T A} (m : M T A) (h : exn → option (M T A)) : M T A :=
  λ s, match m s with
       | (Return a, s') => (Return a, s')
       | (Raise e, s') =>
           match h e with
           | Some k => k s'
           | None => (Raise e, s')
           end
       end.

Definition is_play (e : Event) : bool :=
  match e with EvPlay _ => true | _ => false end.

(** Number of requests sent to the engine for a move. *)
Definition count_plays (tr : list Event) : nat :=
  length (filter (λ e, is_play e = true) tr).

(** [list.pop()]: drops the last element. *)
Definition list_pop {A} (l : list A) : list A := take (length l - 1) l.

(** What one call of [engine.play] answers: a result carrying a move (or
    none), no result at all, or an exception. *)
Inductive PlayReply :=
  | PlayResult (move : option Move)
  | PlayNone
  | PlayRaises (e : exn).

(** The handle of a started engine process. *)
Inductive Engine := SimpleEngine.

(** ** chess_game.py: class ChessGame *)

Section chess_game.
Context {Position : Type} `{!RulesEngine Position}.

(** [chess.Board()] *)
Definition new_board : Board Position :=
  {| position := start_position; stack := [] |}.

(** [board.push(move)] *)
Definition push (b : Board Position) (m : Move) : Board Position :=
  {| position := apply_move (position b) m;
     stack := (m, position b) :: stack b |}.

(** [board.pop()]: [None] stands for the [IndexError] on an empty stack. *)
Definition pop (b : Board Position) : option (Board Position) :=
  match stack b with
  | [] => None
  | (_, p) :: st => Some {| position := p; stack := st |}
  end.

Record ChessGame := {
  board : Board Position;
  mode : string;
  engine : option Engine;
  difficulty_level : Z;
  show_hints : bool;
  current_evaluation : string;
  last_move : option Move;
  _move_cache : gmap string Move;
  move_history : list string }.

Definition set_engine (g : ChessGame) (e : option Engine) : ChessGame :=
  {| board := board g; mode := mode g; engine := e;
     difficulty_level := difficulty_level g; show_hints := show_hints g;
     current_evaluation := current_evaluation g; last_move := last_move g;
     _move_cache := _move_cache g; move_history := move_history g |}.

Definition set_difficulty_level (g : ChessGame) (level : Z) : ChessGame :=
  {| board := board g; mode := mode g; engine := engine g;
     difficulty_level := level; show_hints := show_hints g;
     current_evaluation := current_evaluation g; last_move := last_move g;
     _move_cache := _move_cache g; move_history := move_history g |}.

Definition set_move_cache (g : ChessGame) (c : gmap string Move) : ChessGame :=
  {| board := board g; mode := mode g; engine := engine g;
     difficulty_level := difficulty_level g; show_hints := show_hints g;
     current_evaluation := current_evaluation g; last_move := last_move g;
     _move_cache := c; move_history := move_history g |}.

Definition set_played (g : ChessGame) (b : Board Position)
    (lm : option Move) (h : list string) : ChessGame :=
  {| board := b; mode := mode g; engine := engine g;
     difficulty_level := difficulty_level g; show_hints := show_hints g;
     current_evaluation := current_evaluation g; last_move := lm;
     _move_cache := _move_cache g; move_history := h |}.

(** [ChessGame.__init__].  [popen_reply] is the exception raised by
    [popen_uci], if any.  Whatever the first [configure] does, the engine
    stays bound: an [EngineError] is caught by the inner handler, anything
    else by the outer one, after [self.engine] was assigned. *)
Definition init (engine_path mode_ : string) (popen_reply : option exn)
    : St ChessGame :=
  let g := {| board := new_board; mode := mode_; engine := None;
              difficulty_level := 3; show_hints := true;
              current_evaluation := "0.0"; last_move := None;
              _move_cache := ∅; move_history := [] |} in
  match popen_reply with
  | Some _ => {| obj := g; trace := [EvPopen engine_path] |}
  | None =>
      {| obj := set_engine g (Some SimpleEngine);
         trace := [EvPopen engine_path;
                   EvConfigure [("Skill Level", 20); ("Threads", 2);
                                ("Hash", 128)]%Z] |}
  end.

(** [get_random_move]: [random.choice] is the element at index
    [rnd mod len]. *)
Definition get_random_move (rnd : nat) : M ChessGame (option Move) :=
  g ← get;
  let legal := legal_moves (position (board g)) in
  match legal with
  | [] => mret None
  | _ :: _ =>
      emit (EvRandom (length legal));;
      mret (legal !! (rnd `mod` length legal)%nat)
  end.

Definition get_engine_move (reply : PlayReply) (rnd : nat)
    : M ChessGame (option Move) :=
  g ← get;
  if is_game_over (board g) then mret None
  else
    try_except
      (let board_fen := fen (position (board g)) in
       emit (EvCacheLookup board_fen);;
       match _move_cache g !! board_fen with
       | Some cached => mret (Some cached)
       | None =>
           match engine g with
           | None => get_random_move rnd
           | Some _ =>
               emit (EvPlay board_fen);;
               match reply with
               | PlayRaises e => raise e
               | PlayNone => raise (StockfishError "Engine returned no move")
               | PlayResult None =>
                   raise (StockfishError "Illegal move suggested")
               | PlayResult (Some move) =>
                   if decide (move ∈ legal_moves (position (board g)))
                   then
                     put (set_move_cache g (<[board_fen := move]> (_move_cache g)));;
                     mret (Some move)
                   else raise (StockfishError "Illegal move suggested")
               end
           end
       end)
      (λ e, match e with
            | EngineTerminatedError | StockfishError _ =>
                Some (get_random_move rnd)
            | _ => None
            end).

(** The dictionary of skill levels in [set_difficulty], with its default. *)
Definition skill_level_of (level : Z) : Z :=
  (match level with 1 => 0 | 2 => 5 | 3 => 10 | 4 => 20 | _ => 10 end)%Z.

(** [configure_reply] is the exception raised by [engine.configure], if
    any.  [except chess.engine.EngineError] also catches
    [EngineTerminatedError], which python-chess declares as a subclass of
    [EngineError]. *)
Definition set_difficulty (level : Z) (configure_reply : option exn)
    : M ChessGame unit :=
  g ← get;
  put (set_difficulty_level g level);;
  match engine g with
  | None => mret tt
  | Some _ =>
      let skill_level := skill_level_of level in
      try_except
        (emit (EvConfigure [("Skill Level", skill_level)]);;
         match configure_reply with
         | Some e => raise e
         | None => mret tt
         end)
        (λ e, match e with
              | EngineError | EngineTerminatedError => Some (mret tt)
              | _ => None
              end)
  end.

Definition make_move (move : Move) : M ChessGame bool :=
  g ← get;
  if decide (move ∈ legal_moves (position (board g))) then
    match san (position (board g)) move with
    | None => raise AssertionError
    | Some san_move =>
        put (set_played g (push (board g) move) (Some move)
               (move_history g ++ [san_move]));;
        mret true
    end
  else mret false.

Definition undo_move : M ChessGame bool :=
  g ← get;
  if decide (move_stack (board g) = []) then mret false
  else
    match pop (board g) with
    | None => raise IndexError
    | Some b =>
        put (set_played g b (last_move g)
               (match move_history g with
                | [] => []
                | _ :: _ => list_pop (move_history g)
                end));;
        mret true
    end.

(** The history has one entry per move on the board. *)
Definition history_matches_board (g : ChessGame) : Prop :=
  length (move_history g) = length (move_stack (board g)).

(** Every cached move is legal in a position whose FEN is its key. *)
Definition cache_sound (c : gmap string Move) : Prop :=
  ∀ k m, c !! k = Some m →
    ∃ p : Position, fen p = k ∧ m ∈ legal_moves p.

(** The cases in which [get_engine_move] gets no verified move from the
    engine: there is no engine, or the call ends with an exception, with
    no result, with no move or with an illegal one. *)
Definition no_engine_move (g : ChessGame) (reply : PlayReply) : Prop :=
  engine g = None ∨
  match reply with
  | PlayResult (Some move) => move ∉ legal_moves (position (board g))
  | _ => True
  end.

Context `{!CoachRules Position}.

(** The list [comments] that [ChessGame.get_coach_comment] builds. *)
Definition coach_comments (g : ChessGame) (move : Move) : list string :=
  let comments :=
    (if is_capture (position (board g)) move
     then ["Good! Capturing pieces can help gain material advantage."]
     else [])
    ++ (if is_check (position (push (board g) move))
        then ["Nice check! Putting pressure on the opponent's king."]
        else [])
    ++ (if decide (to_square move ∈ [E4; D4; E5; D5])
        then ["Good move! Controlling the center is important in chess."]
        else [])
    ++ (match piece_at (position (board g)) (from_square move) with
        | Some piece =>
            if decide (piece_type piece ∈ [KNIGHT; BISHOP]
                       ∧ fullmove_number (position (board g)) ≤ 10)
            then ["Good development! Getting your pieces into the game early is important."]
            else []
        | None => []
        end)
    ++ (match piece_at (position (board g)) (from_square move) with
        | Some piece =>
            if decide (piece_type piece = KING
                       ∧ Z.abs (Z.of_nat (from_square move)
                                - Z.of_nat (to_square move)) = 2%Z)
            then ["Good castling! This move protects your king and connects your rooks."]
            else []
        | None => []
        end) in
  match comments with
  | [] => ["Remember to develop your pieces and control the center."]
  | _ :: _ => comments
  end.

Definition get_coach_comment (g : ChessGame) (move : Move) : string :=
  str_join " " (coach_comments g move).

End chess_game.

(** ** main.py: the game manager and the web handlers *)

(** What one call of [engine.analyse] answers: the score of the info
    dictionary (if any), seen from White, or an exception. *)
Inductive PovScore := Cp (white_cp : Z) | Mate (n : Z).
Inductive AnalyseReply :=
  | AnalyseInfo (score : option PovScore)
  | AnalyseRaises (e : exn).

(** The dictionary returned by [analyze_position]; [score] is kept in
    centipawns, the program divides it by [100.0]. *)
Record Evaluation := { score : option Z; mate : option Z }.

Inductive Response (A : Type) :=
  | Ok200 (body : A)
  | Err400 (error : string).
Arguments Ok200 {A} _.
Arguments Err400 {A} _.

(** [bool(move)]: the null move is falsy. *)
Definition move_truthy (m : Move) : bool :=
  negb (bool_decide (from_square m = 0 ∧ to_square m = 0 ∧ promotion m = None)).

Definition piece_name (pt : PieceType) : string :=
  match pt with
  | PAWN => "pawn" | KNIGHT => "knight" | BISHOP => "bishop"
  | ROOK => "rook" | QUEEN => "queen" | KING => "king"
  end.

(** [str.capitalize] on the six piece names. *)
Definition piece_name_capitalized (pt : PieceType) : string :=
  match pt with
  | PAWN => "Pawn" | KNIGHT => "Knight" | BISHOP => "Bishop"
  | ROOK => "Rook" | QUEEN => "Queen" | KING => "King"
  end.

Module Web.
Section web.
Context {Position : Type} `{!RulesEngine Position}.

(** One entry of [active_games]. *)
Record Game := {
  board : Board Position;
  mode : string;
  human_is_white : bool;
  difficulty : Z;
  show_hints : bool;
  move_history : list string;
  last_engine_hint : option (string * string * string) }.

Definition set_board (g : Game) (b : Board Position) : Game :=
  {| board := b; mode := mode g; human_is_white := human_is_white g;
     difficulty := difficulty g; show_hints := show_hints g;
     move_history := move_history g;
     last_engine_hint := last_engine_hint g |}.

Definition set_move_history (g : Game) (h : list string) : Game :=
  {| board := board g; mode := mode g; human_is_white := human_is_white g;
     difficulty := difficulty g; show_hints := show_hints g;
     move_history := h; last_engine_hint := last_engine_hint g |}.

Definition set_difficulty_field (g : Game) (d : Z) : Game :=
  {| board := board g; mode := mode g; human_is_white := human_is_white g;
     difficulty := d; show_hints := show_hints g;
     move_history := move_history g;
     last_engine_hint := last_engine_hint g |}.

Definition set_last_engine_hint (g : Game)
    (h : option (string * string * string)) : Game :=
  {| board := board g; mode := mode g; human_is_white := human_is_white g;
     difficulty := difficulty g; show_hints := show_hints g;
     move_history := move_history g; last_engine_hint := h |}.

(** The process state: the global [active_games] and [game_manager]. *)
Record Server := {
  active_games : gmap string Game;
  manager_engine : option Engine }.

Definition set_active_games (sv : Server) (a : gmap string Game) : Server :=
  {| active_games := a; manager_engine := manager_engine sv |}.

(** [active_games[game_id]] *)
Definition get_game (game_id : string) : M Server Game :=
  sv ← get;
  match active_games sv !! game_id with
  | Some g => mret g
  | None => raise KeyError
  end.

(** In-place update of the dictionary [active_games[game_id]]. *)
Definition update_game (game_id : string) (f : Game → Game) : M Server unit :=
  sv ← get;
  match active_games sv !! game_id with
  | Some g => put (set_active_games sv (<[game_id := f g]> (active_games sv)))
  | None => raise KeyError
  end.

(** [ChessGameManager.get_random_move] *)
Definition get_random_move (b : Board Position) (rnd : nat)
    : M Server (option Move) :=
  let legal := legal_moves (position b) in
  match legal with
  | [] => mret None
  | _ :: _ =>
      emit (EvRandom (length legal));;
      mret (legal !! (rnd `mod` length legal)%nat)
  end.

(** [ChessGameManager.get_engine_move]: every exception of the engine is
    caught. The think time [0.5 * difficulty] only travels to the engine. *)
Definition get_engine_move (b : Board Position) (difficulty_ : Z)
    (reply : PlayReply) (rnd : nat) : M Server (option Move) :=
  sv ← get;
  match manager_engine sv with
  | None => get_random_move b rnd
  | Some _ =>
      try_except
        (emit (EvPlay (fen (position b)));;
         match reply with
         | PlayRaises e => raise e
         | PlayResult (Some move) =>
             if move_truthy move then mret (Some move)
             else get_random_move b rnd
         | PlayResult None | PlayNone => get_random_move b rnd
         end)
        (λ _, Some (get_random_move b rnd))
  end.

(** [ChessGameManager.analyze_position].  The score of the info
    dictionary is a [PovScore], which has [is_mate] and [white] but no
    method [mate]: on a mate score [score.mate()] raises [AttributeError],
    which [except Exception] catches like every other exception. *)
Definition analyze_position (b : Board Position) (reply : AnalyseReply)
    : M Server Evaluation :=
  sv ← get;
  match manager_engine sv with
  | None => mret {| score := Some 0%Z; mate := None |}
  | Some _ =>
      try_except
        (emit (EvAnalyse (fen (position b)));;
         match reply with
         | AnalyseRaises e => raise e
         | AnalyseInfo (Some (Mate n)) => raise AttributeError
         | AnalyseInfo (Some (Cp cp)) => mret {| score := Some cp; mate := None |}
         | AnalyseInfo None => mret {| score := Some 0%Z; mate := None |}
         end)
        (λ _, Some (mret {| score := Some 0%Z; mate := None |}))
  end.

Definition explain_move (b : Board Position) (move : Move) : string :=
  match piece_at (position b) (from_square move) with
  | None => "Invalid move"
  | Some piece =>
      let explanation :=
        piece_name_capitalized (piece_type piece) +:+ " from " +:+
        square_name (from_square move) +:+ " to " +:+
        square_name (to_square move) in
      let explanation :=
        if is_capture (position b) move then
          match piece_at (position b) (to_square move) with
          | Some captured =>
              explanation +:+ ", capturing " +:+ piece_name (piece_type captured)
          | None => explanation
          end
        else explanation in
      if is_check (position (push b move))
      then explanation +:+ ", giving check"
      else explanation
  end.

(** [ChessGameManager.get_best_move] *)
Definition get_best_move (b : Board Position) (reply : PlayReply) (rnd : nat)
    : M Server (option Move * string) :=
  sv ← get;
  match manager_engine sv with
  | None =>
      m ← get_random_move b rnd; mret (m, "No engine available")
  | Some _ =>
      try_except
        (emit (EvPlay (fen (position b)));;
         match reply with
         | PlayRaises e => raise e
         | PlayNone | PlayResult None => raise AttributeError
         | PlayResult (Some move) => mret (Some move, explain_move b move)
         end)
        (λ _, Some (m ← get_random_move b rnd; mret (m, "Engine error")))
  end.

(** The fields every response carries. *)
Record StateView := {
  view_fen : string;
  isCheck : bool;
  isCheckmate : bool;
  isStalemate : bool;
  isGameOver : bool;
  view_turn : string;
  moveHistory : list string }.

Definition view (b : Board Position) (h : list string) : StateView :=
  {| view_fen := fen (position b);
     isCheck := is_check (position b);
     isCheckmate := is_checkmate (position b);
     isStalemate := is_stalemate (position b);
     isGameOver := is_game_over b;
     view_turn := match turn (position b) with
                  | WHITE => "white" | BLACK => "black" end;
     moveHistory := h |}.

(** The JSON body of a request: absent keys are [None]. *)
Record NewGameRequest := {
  rq_mode : option string;
  rq_color : option string }.

(** [new_game]; [now] is [int(time.time())]. *)
Definition new_game (data : NewGameRequest) (now : Z)
    (reply : PlayReply) (rnd : nat) : M Server (string * StateView) :=
  let game_mode := default "Play" (rq_mode data) in
  let human_is_white_ := bool_decide (default "white" (rq_color data) = "white") in
  let game_id := pretty now in
  sv ← get;
  put (set_active_games sv
         (<[game_id := {| board := new_board; mode := game_mode;
                          human_is_white := human_is_white_;
                          difficulty := 3; show_hints := true;
                          move_history := [];
                          last_engine_hint := None |}]> (active_games sv)));;
  (if negb human_is_white_ && negb (bool_decide (game_mode = "Self-Practice"))
   then
     engine_move ← get_engine_move new_board 3 reply rnd;
     match engine_move with
     | Some m =>
         if move_truthy m then
           update_game game_id (λ g, set_board g (push (board g) m));;
           g ← get_game game_id;
           match san (position (board g)) m with
           | None => raise AssertionError
           | Some s =>
               update_game game_id
                 (λ g, set_move_history g (move_history g ++ [s]))
           end
         else mret tt
     | None => mret tt
     end
   else mret tt);;
  g ← get_game game_id;
  mret (game_id, view (board g) (move_history g)).

Record MoveRequest := {
  mv_gameId : option string;
  mv_from : option string;
  mv_to : option string }.

Record MoveResponse := {
  mr_state : StateView;
  lastMove : string * string * string;
  engineMove : option (string * string * string);
  evaluation : Evaluation }.

(** [not game_id or game_id not in active_games] *)
Definition find_game (sv : Server) (game_id : option string) : option (string * Game) :=
  match game_id with
  | None => None
  | Some gid =>
      if decide (gid = "") then None
      else (λ g, (gid, g)) <$> active_games sv !! gid
  end.

(** [chess.parse_square(data.get(key))] *)
Definition parse_square_arg (name : option string) : M Server Square :=
  match name ≫= parse_square with
  | Some sq => mret sq
  | None => raise ValueError
  end.

(** The move object the move route builds from the two squares: a pawn
    reaching its last rank promotes to a queen. *)
Definition requested_move (b : Board Position) (from_idx to_idx : Square)
    : Move :=
  let promotion_ :=
    match piece_at (position b) from_idx with
    | Some {| piece_type := PAWN; color := c |} =>
        if bool_decide (square_rank to_idx = 7 ∧ c = WHITE)
           || bool_decide (square_rank to_idx = 0 ∧ c = BLACK)
        then Some QUEEN else None
    | _ => None
    end in
  {| from_square := from_idx; to_square := to_idx; promotion := promotion_ |}.

(** Route [/api/move]. *)
Definition make_move (data : MoveRequest) (reply : PlayReply) (rnd : nat)
    (analyse_reply : AnalyseReply) : M Server (Response MoveResponse) :=
  sv ← get;
  match find_game sv (mv_gameId data) with
  | None => mret (Err400 "Invalid game ID")
  | Some (game_id, game) =>
      from_idx ← parse_square_arg (mv_from data);
      to_idx ← parse_square_arg (mv_to data);
      let move := requested_move (board game) from_idx to_idx in
      if decide (move ∈ legal_moves (position (board game))) then
        match san (position (board game)) move with
        | None => raise AssertionError
        | Some san_move =>
            update_game game_id (λ g, set_board g (push (board g) move));;
            update_game game_id
              (λ g, set_move_history g (move_history g ++ [san_move]));;
            game ← get_game game_id;
            let last := (default "" (mv_from data), default "" (mv_to data),
                         san_move) in
            engine_part ←
              (if bool_decide (mode game = "Play")
                  && negb (is_game_over (board game))
               then
                 let is_human_turn :=
                   human_is_white game
                     && bool_decide (turn (position (board game)) = WHITE)
                   || negb (human_is_white game)
                     && bool_decide (turn (position (board game)) = BLACK) in
                 if negb is_human_turn then
                   engine_move ←
                     get_engine_move (board game) (difficulty game) reply rnd;
                   match engine_move with
                   | Some em =>
                       if move_truthy em then
                         match san (position (board game)) em with
                         | None => raise AssertionError
                         | Some engine_san =>
                             update_game game_id
                               (λ g, set_board g (push (board g) em));;
                             update_game game_id
                               (λ g, set_move_history g
                                       (move_history g ++ [engine_san]));;
                             mret (Some (square_name (from_square em),
                                         square_name (to_square em),
                                         engine_san))
                         end
                       else mret None
                   | None => mret None
                   end
                 else mret None
               else mret None);
            game ← get_game game_id;
            eval_data ← analyze_position (board game) analyse_reply;
            mret (Ok200 {| mr_state := view (board game) (move_history game);
                           lastMove := last;
                           engineMove := engine_part;
                           evaluation := eval_data |})
        end
      else mret (Err400 "Illegal move")
  end.

(** Route [/api/hint]. *)
Definition get_hint (game_id : option string) (reply : PlayReply) (rnd : nat)
    : M Server (Response (string * string * string)) :=
  sv ← get;
  match find_game sv game_id with
  | None => mret (Err400 "Invalid game ID")
  | Some (gid, game) =>
      '(best_move, explanation) ← get_best_move (board game) reply rnd;
      match best_move with
      | Some bm =>
          if move_truthy bm then
            let hint := (square_name (from_square bm),
                         square_name (to_square bm), explanation) in
            update_game gid (λ g, set_last_engine_hint g (Some hint));;
            mret (Ok200 hint)
          else mret (Err400 "Could not generate hint")
      | None => mret (Err400 "Could not generate hint")
      end
  end.

(** The block the undo route repeats: pop the board if it has moves, and
    then the history if it has entries. *)
Definition undo_last (game_id : string) : M Server unit :=
  game ← get_game game_id;
  if decide (0 < length (move_stack (board game)))%nat then
    match pop (board game) with
    | None => raise IndexError
    | Some b =>
        update_game game_id (λ g, set_board g b);;
        match move_history game with
        | [] => mret tt
        | _ :: _ =>
            update_game game_id
              (λ g, set_move_history g (list_pop (move_history g)))
        end
    end
  else mret tt.

(** Route [/api/undo]. *)
Definition undo_move (game_id : option string) : M Server (Response StateView) :=
  sv ← get;
  match find_game sv game_id with
  | None => mret (Err400 "Invalid game ID")
  | Some (gid, game) =>
      (if decide (mode game = "Play")
       then undo_last gid;; undo_last gid
       else undo_last gid);;
      game ← get_game gid;
      mret (Ok200 (view (board game) (move_history game)))
  end.

(** Route [/api/set_difficulty]; [difficulty_] is the integer read by
    [int(data.get('difficulty', 3))]. *)
Definition set_difficulty (game_id : option string) (difficulty_ : option Z)
    : M Server (Response (bool * Z)) :=
  let difficulty_ := default 3%Z difficulty_ in
  sv ← get;
  match find_game sv game_id with
  | None => mret (Err400 "Invalid game ID")
  | Some (gid, _) =>
      let difficulty_ := Z.max 1 (Z.min 4 difficulty_) in
      update_game gid (λ g, set_difficulty_field g difficulty_);;
      mret (Ok200 (true, difficulty_))
  end.

(** The condition of the data model: one history entry per move played. *)
Definition session_wf (g : Game) : Prop :=
  length (move_history g) = length (move_stack (board g)).

(** The effect of [undo_last] on the session it works on. *)
Definition undo_game (g : Game) : Game :=
  match pop (board g) with
  | None => g
  | Some b =>
      {| board := b; mode := mode g; human_is_white := human_is_white g;
         difficulty := difficulty g; show_hints := show_hints g;
         move_history := match move_history g with
                         | [] => []
                         | _ :: _ => list_pop (move_history g)
                         end;
         last_engine_hint := last_engine_hint g |}
  end.

(** The session [new_game] registers before anything else. *)
Definition fresh_game (game_mode : string) (human_is_white_ : bool)
    (b : Board Position) : Game :=
  {| board := b; mode := game_mode;
     human_is_white := human_is_white_; difficulty := 3;
     show_hints := true; move_history := [];
     last_engine_hint := None |}.

(** Every session of [a] is still in [a'], with the hint it had. *)
Definition same_hints (a a' : gmap string Game) : Prop :=
  ∀ gid g, a !! gid = Some g →
    ∃ g', a' !! gid = Some g' ∧ last_engine_hint g' = last_engine_hint g.

(** A computation that keeps every session and its hint, however it
    ends. *)
Definition keeps_hints {A} (m : M Server A) : Prop :=
  ∀ sv, same_hints (active_games (obj sv)) (active_games (obj (m sv).2)).

(** Route [/api/analyze]. *)
Definition analyze_position_route (game_id : option string)
    (reply : AnalyseReply) : M Server (Response Evaluation) :=
  sv ← get;
  match find_game sv game_id with
  | None => mret (Err400 "Invalid game ID")
  | Some (_, game) =>
      eval_data ← analyze_position (board game) reply;
      mret (Ok200 eval_data)
  end.

(** Every registered session has one history entry per move played. *)
Definition all_wf (a : gmap string Game) : Prop :=
  ∀ gid g, a !! gid = Some g → session_wf g.

(** A computation that, from sessions that all have one history entry per
    move, ends on such sessions, however it ends. *)
Definition keeps_wf {A} (m : M Server A) : Prop :=
  ∀ sv, all_wf (active_games (obj sv)) → all_wf (active_games (obj (m sv).2)).

(** What [new_game] leaves behind in [sv'], started from [sv]: sessions
    under other identifiers as they were, a new session under the
    identifier of the current second, the same engine, and at most one
    more request to the engine. *)
Definition new_game_outcome (sv : St Server) (data : NewGameRequest) (now : Z)
    (sv' : St Server) : Prop :=
  (∀ gid', gid' ≠ pretty now →
      active_games (obj sv') !! gid' = active_games (obj sv) !! gid')
  ∧ (∃ game',
        active_games (obj sv') !! pretty now = Some game'
        ∧ mode game' = default "Play" (rq_mode data)
        ∧ human_is_white game'
          = bool_decide (default "white" (rq_color data) = "white")
        ∧ difficulty game' = 3%Z
        ∧ last_engine_hint game' = None
        ∧ (length (move_history game')
           ≤ length (move_stack (board game')) ≤ 1)%nat)
  ∧ manager_engine (obj sv') = manager_engine (obj sv)
  ∧ (count_plays (trace sv') ≤ count_plays (trace sv) + 1)%nat.

(** What [get_random_move] answers and records: the pick among the legal
    moves, if there is any. *)
Definition random_outcome (b : Board Position) (rnd : nat)
    : option Move * list Event :=
  match legal_moves (position b) with
  | [] => (None, [])
  | m0 :: l0 =>
      ((m0 :: l0) !! (rnd `mod` length (m0 :: l0))%nat,
       [EvRandom (length (m0 :: l0))])
  end.

(** What [ChessGameManager.get_engine_move] answers and records, given
    whether there is an engine and what it replies. *)
Definition engine_move_outcome (engine_ : option Engine) (b : Board Position)
    (reply : PlayReply) (rnd : nat) : option Move * list Event :=
  match engine_ with
  | None => random_outcome b rnd
  | Some _ =>
      match reply with
      | PlayResult (Some move) =>
          if move_truthy move then (Some move, [EvPlay (fen (position b))])
          else ((random_outcome b rnd).1,
                EvPlay (fen (position b)) :: (random_outcome b rnd).2)
      | _ => ((random_outcome b rnd).1,
              EvPlay (fen (position b)) :: (random_outcome b rnd).2)
      end
  end.

Context `{!CoachRules Position}.

(** [generate_coach_comment(board, move)] *)
Definition generate_coach_comment (b : Board Position) (move : Move) : string :=
  match piece_at (position b) (from_square move) with
  | None => "Unable to analyze this move."
  | Some piece =>
      let captured_piece := piece_at (position b) (to_square move) in
      let gives_check := is_check (position (push b move)) in
      let moved_to_center := bool_decide (to_square move ∈ [E4; D4; E5; D5]) in
      let is_development :=
        bool_decide (piece_type piece ∈ [KNIGHT; BISHOP])
        && bool_decide (square_rank (from_square move) ∈ [0; 7]) in
      let is_castling :=
        bool_decide (piece_type piece = KING
                     ∧ Z.abs (Z.of_nat (from_square move)
                              - Z.of_nat (to_square move)) = 2%Z) in
      let comments :=
        (if is_capture (position b) move then
           let captured_name :=
             match captured_piece with
             | Some captured => piece_name (piece_type captured)
             | None => "piece"
             end in
           ["Good capture! Taking the " +:+ captured_name
            +:+ " gains material advantage."]
         else [])
        ++ (if gives_check
            then ["Nice check! Putting pressure on the opponent's king."]
            else [])
        ++ (if moved_to_center && bool_decide (piece_type piece ∈ [PAWN; KNIGHT])
            then ["Good central control! Controlling the center is important in chess."]
            else [])
        ++ (if is_development && bool_decide (fullmove_number (position b) ≤ 10)
            then ["Good development! Getting your pieces into play early is a key principle."]
            else [])
        ++ (if is_castling
            then ["Good castling! This move protects your king and connects your rooks."]
            else []) in
      let comments :=
        match comments with
        | [] =>
            if decide (fullmove_number (position b) ≤ 10) then
              ["Remember to focus on development, central control, and king safety in the opening."]
            else if decide (fullmove_number (position b) ≤ 25) then
              ["In the middlegame, look for tactical opportunities and strategic advantages."]
            else
              ["In the endgame, activate your king and try to promote your pawns."]
        | _ :: _ => comments
        end in
      str_join " " comments
  end.

(** The loop of the coach route that replays the history: an entry that
    does not parse is skipped. *)
Fixpoint replay (sans : list string) (b : Board Position) : Board Position :=
  match sans with
  | [] => b
  | move_san :: rest =>
      match parse_san (position b) move_san with
      | Some move => replay rest (push b move)
      | None => replay rest b
      end
  end.

(** The body of a coach request; [co_moveIdx] is [None] when the key is
    absent, and an integer otherwise. *)
Record CoachRequest := {
  co_gameId : option string;
  co_moveIdx : option Z }.

(** Route [/api/coach_comment].  The [ValueError] of the last [parse_san]
    is not caught. *)
Definition get_coach_comment (rq : CoachRequest) : M Server (Response string) :=
  sv ← get;
  match find_game sv (co_gameId rq) with
  | None => mret (Err400 "Invalid game ID")
  | Some (_, game) =>
      let move_idx := default (-1)%Z (co_moveIdx rq) in
      let move_idx :=
        if decide (move_idx = (-1)%Z ∧ move_history game ≠ [])
        then (Z.of_nat (length (move_history game)) - 1)%Z
        else move_idx in
      if decide ((move_idx < 0)%Z ∨ move_history game = []
                 ∨ (Z.of_nat (length (move_history game)) ≤ move_idx)%Z)
      then mret (Err400 "Invalid move index")
      else
        let b := replay (take (Z.to_nat move_idx) (move_history game)) new_board in
        match move_history game !! Z.to_nat move_idx with
        | None => raise IndexError
        | Some last_move_san =>
            match parse_san (position b) last_move_san with
            | None => raise ValueError
            | Some last_move_ => mret (Ok200 (generate_coach_comment b last_move_))
            end
        end
  end.

(** The texts [sans], read one after the other from the position [p],
    parse as the moves [moves]. *)
Fixpoint reads_as (p : Position) (moves : list Move) (sans : list string)
    : Prop :=
  match moves, sans with
  | [], [] => True
  | move :: moves', move_san :: sans' =>
      parse_san p move_san = Some move
      ∧ reads_as (apply_move p move) moves' sans'
  | _, _ => False
  end.

End web.
End Web.

(** ** chess_gui.py: the parts of ChessGUI that compute on the game *)

(** The loop of [ChessGUI.update_move_history] that builds the lines of
    the move list: [i] is the index [enumerate] has reached.  [None] of
    [last] stands for the [IndexError] of [move_pairs[-1]] on an empty
    list. *)
Fixpoint move_pairs_loop (i : nat) (moves : list string)
    (move_pairs : list string) : result (list string) :=
  match moves with
  | [] => Return move_pairs
  | move :: rest =>
      if decide (i `mod` 2 = 0)%nat then
        let move_number := (i `div` 2 + 1)%nat in
        move_pairs_loop (S i) rest
          (move_pairs ++ [pretty move_number +:+ ". " +:+ move])
      else
        match last move_pairs with
        | None => Raise IndexError
        | Some line =>
            move_pairs_loop (S i) rest
              (list_pop move_pairs ++ [line +:+ " " +:+ move])
        end
  end.

Definition move_pairs (move_history_ : list string) : result (list string) :=
  move_pairs_loop 0 move_history_ [].

(** The lines of a move list, read two moves at a time: line number [n]
    holds White's move and, if it was played, Black's. *)
Fixpoint numbered_lines (n : nat) (moves : list string) : list string :=
  match moves with
  | [] => []
  | [w] => [pretty n +:+ ". " +:+ w]
  | w :: b :: rest =>
      ((pretty n +:+ ". " +:+ w) +:+ " " +:+ b) :: numbered_lines (S n) rest
  end.

(** [chess.square(file_index, rank_index)] *)
Definition chess_square (file_index rank_index : Z) : Z :=
  (rank_index * 8 + file_index)%Z.

(** The square [ChessGUI.on_click] computes from the pixel of a click. *)
Definition clicked_square (flipped : bool) (square_size x y : Z) : Z :=
  let col := (x `div` square_size)%Z in
  let row := (y `div` square_size)%Z in
  if flipped then chess_square (7 - col) (7 - row)
  else chess_square col (7 - row).

(** [update_display]: the pixel at which the piece standing on [square]
    is drawn. *)
Definition piece_xy (flipped : bool) (square_size : Z) (square : Square)
    : Z * Z :=
  let file_idx := Z.of_nat (square_file square) in
  let rank_idx := Z.of_nat (square_rank square) in
  if flipped then
    (((7 - file_idx) * square_size + square_size `div` 2)%Z,
     (rank_idx * square_size + square_size `div` 2)%Z)
  else
    ((file_idx * square_size + square_size `div` 2)%Z,
     ((7 - rank_idx) * square_size + square_size `div` 2)%Z).

(** [update_display]: the upper left corner [(x1, y1)] of the cell drawn
    at the loop indices [row] and [col], and the square whose selection
    and highlighting give the cell its colour. *)
Definition cell_xy (flipped : bool) (square_size row col : Z) : Z * Z :=
  ((col * square_size)%Z,
   if flipped then (row * square_size)%Z else ((7 - row) * square_size)%Z).

Definition cell_square (flipped : bool) (row col : Z) : Z :=
  chess_square col (if flipped then (7 - row)%Z else row).

Section chess_gui.
Context {Position : Type} `{!RulesEngine Position}.


Context `{!CoachRules Position}.


End chess_gui.

(** ** A miniature rules engine

    The statements below hold for every rules engine.  To run the
    definitions on concrete games, this module gives a small one: the board
    and the start position of chess, with pawn pushes and knight jumps as
    the only moves.  Like python-chess, its [san] refuses a move whose
    origin square is empty. *)
Module Mini.

Record Position := {
  placement : list (option Piece);
  to_move : Color }.

Definition pc (c : Color) (t : PieceType) : option Piece :=
  Some {| piece_type := t; color := c |}.

Definition back_rank (c : Color) : list (option Piece) :=
  pc c <$> [ROOK; KNIGHT; BISHOP; QUEEN; KING; BISHOP; KNIGHT; ROOK].

Definition start : Position :=
  {| placement := back_rank WHITE ++ replicate 8 (pc WHITE PAWN)
                  ++ replicate 32 None
                  ++ replicate 8 (pc BLACK PAWN) ++ back_rank BLACK;
     to_move := WHITE |}.

Definition at_square (p : Position) (sq : Square) : option Piece :=
  mjoin (placement p !! sq).

Definition other (c : Color) : Color :=
  match c with WHITE => BLACK | BLACK => WHITE end.

Definition apply (p : Position) (m : Move) : Position :=
  let moved :=
    match at_square p (from_square m), promotion m with
    | Some piece, Some t => Some {| piece_type := t; color := color piece |}
    | piece, _ => piece
    end in
  {| placement := <[to_square m := moved]> (<[from_square m := None]> (placement p));
     to_move := other (to_move p) |}.

Definition mk (f t : Square) : Move :=
  {| from_square := f; to_square := t; promotion := None |}.

Definition pawn_moves (p : Position) (sq : Square) : list Move :=
  let c := to_move p in
  let fwd (n : nat) := match c with WHITE => sq + 8 * n | BLACK => sq - 8 * n end in
  let home := match c with WHITE => 1 | BLACK => 6 end in
  let last := match c with WHITE => 7 | BLACK => 0 end in
  let free (s : Square) := bool_decide (at_square p s = None) in
  if bool_decide (square_rank sq = last) then []
  else if free (fwd 1) then
    {| from_square := sq; to_square := fwd 1;
       promotion := if bool_decide (square_rank (fwd 1) = last)
                    then Some QUEEN else None |}
    :: (if bool_decide (square_rank sq = home) && free (fwd 2)
        then [mk sq (fwd 2)] else [])
  else [].

Definition knight_moves (p : Position) (sq : Square) : list Move :=
  let df (t : Square) := Z.abs (Z.of_nat (square_file t) - Z.of_nat (square_file sq)) in
  let dr (t : Square) := Z.abs (Z.of_nat (square_rank t) - Z.of_nat (square_rank sq)) in
  let ok (t : Square) :=
    bool_decide ((df t = 1 ∧ dr t = 2) ∨ (df t = 2 ∧ dr t = 1))%Z
    && negb (bool_decide (color <$> at_square p t = Some (to_move p))) in
  mk sq <$> filter (λ t, ok t = true) (seq 0 64).

Definition moves_from (p : Position) (sq : Square) : list Move :=
  match at_square p sq with
  | Some {| piece_type := PAWN; color := c |} =>
      if decide (c = to_move p) then pawn_moves p sq else []
  | Some {| piece_type := KNIGHT; color := c |} =>
      if decide (c = to_move p) then knight_moves p sq else []
  | _ => []
  end.

Definition legal (p : Position) : list Move :=
  sq ← seq 0 64; moves_from p sq.

Definition symbol (pt : PieceType) : string :=
  match pt with
  | PAWN => "" | KNIGHT => "N" | BISHOP => "B"
  | ROOK => "R" | QUEEN => "Q" | KING => "K"
  end.

Definition to_san (p : Position) (m : Move) : option string :=
  piece ← at_square p (from_square m);
  Some (symbol (piece_type piece) +:+ square_name (to_square m)).

Definition letter (c : Color) (pt : PieceType) : string :=
  match c, pt with
  | WHITE, PAWN => "P" | WHITE, KNIGHT => "N" | WHITE, BISHOP => "B"
  | WHITE, ROOK => "R" | WHITE, QUEEN => "Q" | WHITE, KING => "K"
  | BLACK, PAWN => "p" | BLACK, KNIGHT => "n" | BLACK, BISHOP => "b"
  | BLACK, ROOK => "r" | BLACK, QUEEN => "q" | BLACK, KING => "k"
  end.

Definition cell (o : option Piece) : string :=
  match o with
  | None => "."
  | Some piece => letter (color piece) (piece_type piece)
  end.

Definition to_fen (p : Position) : string :=
  foldr (λ o acc, cell o +:+ acc)
        (match to_move p with WHITE => " w" | BLACK => " b" end)
        (placement p).

#[global] Instance rules : RulesEngine Position := {|
  start_position := start;
  apply_move := apply;
  legal_moves := legal;
  piece_at := at_square;
  turn := to_move;
  fen := to_fen;
  san := to_san;
  is_capture := λ p m, bool_decide (at_square p (to_square m) ≠ None);
  is_check := λ _, false;
  is_checkmate := λ _, false;
  is_stalemate := λ p, bool_decide (legal p = []);
  is_game_over := λ b, bool_decide (legal (position b) = []) |}.

(** The first legal move whose text is [s].  Mini keeps no move counter:
    its games are read as being in their first move. *)
#[global] Instance coach_rules : CoachRules Position := {|
  parse_san := λ p s, head (filter (λ m, to_san p m = Some s) (legal p));
  fullmove_number := λ _, 1 |}.

Definition e2e4 : Move := mk 12 28.
Definition e7e5 : Move := mk 52 36.
Definition e2e5 : Move := mk 12 36.
Definition g1f3 : Move := mk 6 21.

(** A position without any move: two bare kings. *)
Definition bare_kings : Position :=
  {| placement := <[4 := pc WHITE KING]> (<[60 := pc BLACK KING]> (replicate 64 None));
     to_move := WHITE |}.

End Mini.


(** ** Concrete games over the miniature rules engine *)
Module Demo.

(** A fresh game whose engine started. *)
Definition game0 : St (@ChessGame Mini.Position) :=
  init "/usr/games/stockfish" "Play" None.

(** A fresh game whose engine could not be started. *)
Definition game_no_engine : St (@ChessGame Mini.Position) :=
  init "/usr/games/stockfish" "Play" (Some OtherError).

(** A game standing on a position without moves. *)
Definition game_finished : St (@ChessGame Mini.Position) :=
  {| obj := {| board := {| position := Mini.bare_kings; stack := [] |};
               mode := "Play"; engine := Some SimpleEngine;
               difficulty_level := 3; show_hints := true;
               current_evaluation := "0.0"; last_move := None;
               _move_cache := ∅; move_history := [] |};
     trace := [] |}.

(** The server after start-up, with and without a running engine. *)
Definition server0 : St (@Web.Server Mini.Position) :=
  {| obj := {| Web.active_games := ∅; Web.manager_engine := Some SimpleEngine |};
     trace := [] |}.

Definition server_no_engine : St (@Web.Server Mini.Position) :=
  {| obj := {| Web.active_games := ∅; Web.manager_engine := None |};
     trace := [] |}.

Definition play_as (mode_ color_ : string) : Web.NewGameRequest :=
  {| Web.rq_mode := Some mode_; Web.rq_color := Some color_ |}.

Definition move_request (gid from_ to_ : string) : Web.MoveRequest :=
  {| Web.mv_gameId := Some gid; Web.mv_from := Some from_; Web.mv_to := Some to_ |}.

(** The session identifier of the games below. *)
Definition now : Z := 1730000000.
Definition gid : string := "1730000000".

(** A Practice session, the human playing White. *)
Definition server_practice : St (@Web.Server Mini.Position) :=
  (Web.new_game (play_as "Practice" "white") now (PlayResult None) 0 server0).2.

(** The same session after a hint request the engine answers with Nf3. *)
Definition server_hinted : St (@Web.Server Mini.Position) :=
  (Web.get_hint (Some gid) (PlayResult (Some Mini.g1f3)) 0 server_practice).2.

(** The Practice session after the move e2-e4. *)
Definition server_after_e4 : St (@Web.Server Mini.Position) :=
  (Web.make_move (move_request gid "e2" "e4") (PlayResult None) 0
     (AnalyseInfo None) server_practice).2.

Definition session_of (sv : St (@Web.Server Mini.Position))
    : option (@Web.Game Mini.Position) :=
  Web.active_games (obj sv) !! gid.

(** What the create-session request of a Play game as Black leaves on the
    server when the engine opens with e2-e4. *)
Definition server_black : St (@Web.Server Mini.Position) :=
  (Web.new_game (play_as "Play" "black") now (PlayResult (Some Mini.e2e4)) 0
     server0).2.

(** A Play session, the human playing White. *)
Definition server_play : St (@Web.Server Mini.Position) :=
  (Web.new_game (play_as "Play" "white") now (PlayResult None) 0 server0).2.

(** A pawn ending: White to move, and Black without a move afterwards. *)
Definition pawn_ending : Mini.Position :=
  {| Mini.placement := <[12 := Mini.pc WHITE PAWN]> (Mini.placement Mini.bare_kings);
     Mini.to_move := WHITE |}.

Definition ending_game : @Web.Game Mini.Position :=
  {| Web.board := {| position := pawn_ending; stack := [] |};
     Web.mode := "Play"; Web.human_is_white := true; Web.difficulty := 3;
     Web.show_hints := true; Web.move_history := [];
     Web.last_engine_hint := None |}.

(** A server with one Play session standing on the pawn ending. *)
Definition server_ending : St (@Web.Server Mini.Position) :=
  {| obj := {| Web.active_games := {[ gid := ending_game ]};
               Web.manager_engine := Some SimpleEngine |};
     trace := [] |}.

End Demo.


(** ** Properties of ChessGame *)

Ltac unfold_monad :=
  unfold mbind, M_bind, mret, M_ret, get, put, emit, raise, try_except in *.

Section chess_game_properties.
Context {Position : Type} `{!RulesEngine Position}.
Implicit Types (s : St (@ChessGame Position)) (g : @ChessGame Position).

Lemma length_move_stack (b : Board Position) :
  length (move_stack b) = length (stack b).
Proof. unfold move_stack. by rewrite length_reverse, length_fmap. Qed.

Lemma move_stack_push (b : Board Position) m :
  length (move_stack (push b m)) = S (length (move_stack b)).
Proof. by rewrite !length_move_stack. Qed.

Lemma move_stack_nil (b : Board Position) :
  move_stack b = [] ↔ stack b = [].
Proof.
  split.
  - intros E. apply (f_equal length) in E.
    rewrite length_move_stack in E. by destruct (stack b).
  - unfold move_stack. by intros ->.
Qed.

Lemma move_stack_pop (b b' : Board Position) :
  pop b = Some b' → length (move_stack b) = S (length (move_stack b')).
Proof.
  rewrite !length_move_stack. unfold pop.
  destruct (stack b) as [|[m p] st]; [done|]. by intros [= <-].
Qed.

Lemma pop_push (b : Board Position) m :
  pop (push b m) = Some b.
Proof. by destruct b. Qed.

Lemma length_list_pop {A} (l : list A) :
  length (list_pop l) = (length l - 1)%nat.
Proof. unfold list_pop. rewrite length_take. lia. Qed.

Lemma list_pop_snoc {A} (l : list A) x : list_pop (l ++ [x]) = l.
Proof.
  unfold list_pop. rewrite length_app. simpl.
  replace (length l + 1 - 1)%nat with (length l) by lia.
  by rewrite take_app_length.
Qed.

(** C10. When the game is over, [get_engine_move] answers [None] and
    leaves the game and the trace as they were: no lookup in the move
    cache, no request to the engine, no random draw. *)
Theorem get_engine_move_game_over s reply rnd :
  is_game_over (board (obj s)) = true →
  get_engine_move reply rnd s = (Return None, s).
Proof.
  intros Hover. unfold get_engine_move. unfold_monad.
  by rewrite Hover.
Qed.

(** C9. The history and the move stack of the board have the same length
    after construction, and [make_move] and [undo_move] keep them so,
    whatever they return. *)
Theorem history_matches_board_invariant :
  (∀ engine_path mode_ popen_reply,
      history_matches_board (obj (init engine_path mode_ popen_reply)))
  ∧ (∀ s move, history_matches_board (obj s) →
      history_matches_board (obj (make_move move s).2))
  ∧ (∀ s, history_matches_board (obj s) →
      history_matches_board (obj (undo_move s).2)).
Proof.
  unfold history_matches_board. split; [|split].
  - intros ? ? [e|]; reflexivity.
  - intros s move Hs. unfold make_move. unfold_monad.
    case_decide; [|done].
    destruct (san _ move); [|done]. simpl.
    rewrite length_app, move_stack_push. simpl. lia.
  - intros s Hs. unfold undo_move. unfold_monad.
    case_decide as Hnil; [done|].
    destruct (pop (board (obj s))) as [b|] eqn:Hpop; [|done]. simpl.
    apply move_stack_pop in Hpop.
    destruct (move_history (obj s)) eqn:Hh.
    + simpl in Hs. lia.
    + rewrite length_list_pop. simpl in *. lia.
Qed.

Lemma get_random_move_returns s rnd :
  ∃ r tr, get_random_move rnd s = (Return r, {| obj := obj s; trace := tr |}).
Proof.
  unfold get_random_move. unfold_monad. destruct s as [g tr]. simpl.
  destruct (legal_moves _); eauto.
Qed.

Lemma count_plays_snoc tr e :
  count_plays (tr ++ [e]) = (count_plays tr + if is_play e then 1 else 0)%nat.
Proof.
  unfold count_plays. rewrite filter_app, length_app.
  f_equal. by destruct e.
Qed.

(** What one call of [get_engine_move] does to the cache: nothing, or one
    insertion of the engine's move, found legal, under the FEN of the
    current position. *)
Lemma get_engine_move_cache s reply rnd :
  let g := obj s in
  let c' := _move_cache (obj (get_engine_move reply rnd s).2) in
  c' = _move_cache g
  ∨ ∃ m, reply = PlayResult (Some m)
       ∧ m ∈ legal_moves (position (board g))
       ∧ is_Some (engine g)
       ∧ c' = <[fen (position (board g)) := m]> (_move_cache g).
Proof.
  unfold get_engine_move. unfold_monad. simpl.
  destruct (is_game_over _); [by left|]. simpl.
  destruct (_move_cache (obj s) !! _); [by left|].
  destruct (engine (obj s)) eqn:He.
  - destruct reply as [[m|]| |ex]; simpl.
    + case_decide.
      * right. exists m. eauto.
      * left. by edestruct get_random_move_returns as (r & tr & ->).
    + left. by edestruct get_random_move_returns as (r & tr & ->).
    + left. by edestruct get_random_move_returns as (r & tr & ->).
    + destruct ex; simpl; try by left.
      all: left; by edestruct get_random_move_returns as (r & tr & ->).
  - left. by edestruct get_random_move_returns as (r & tr & ->).
Qed.

(** C4. An entry of the move cache after [get_engine_move] was there
    before, or is the engine's own move, checked to be legal in the
    current position and stored under that position's FEN; so a cache
    whose moves are all legal for their keys stays so.  When the move
    comes from the random fallback (no engine, an engine error, no move,
    an illegal move) the cache is left as it was. *)
Theorem move_cache_holds_verified_moves s reply rnd :
  let g := obj s in
  let c' := _move_cache (obj (get_engine_move reply rnd s).2) in
  (∀ k m, c' !! k = Some m →
     _move_cache g !! k = Some m
     ∨ (k = fen (position (board g))
        ∧ m ∈ legal_moves (position (board g))
        ∧ reply = PlayResult (Some m)))
  ∧ (cache_sound (_move_cache g) → cache_sound c')
  ∧ (no_engine_move g reply → c' = _move_cache g).
Proof.
  intros g c'.
  destruct (get_engine_move_cache s reply rnd) as [E|(m0 & -> & Hm0 & He & E)];
    fold g c' in E.
  - rewrite E. split; [by left|]. split; done.
  - split; [|split].
    + intros k m. rewrite E, lookup_insert. case_decide as Hk.
      * intros [= <-]. right. by rewrite <- Hk.
      * by left.
    + intros Hc k m. rewrite E, lookup_insert. case_decide as Hk.
      * intros [= <-]. exists (position (board g)). done.
      * apply Hc.
    + intros [Hno|Hno]; simpl in Hno.
      * destruct He as [e He]. subst g. congruence.
      * done.
Qed.

(** On a position that is not cached, a game that has an engine sends it
    one request, whatever the engine answers. *)
Lemma get_engine_move_miss_plays s r rnd :
  is_game_over (board (obj s)) = false →
  _move_cache (obj s) !! fen (position (board (obj s))) = None →
  is_Some (engine (obj s)) →
  count_plays (trace (get_engine_move r rnd s).2) = S (count_plays (trace s)).
Proof.
  intros Hover Hmiss [e He].
  unfold get_engine_move, get_random_move. unfold_monad. simpl.
  rewrite Hover, Hmiss, He. simpl.
  destruct r as [[m|]| |[]]; simpl; try case_decide; simpl;
    try destruct (legal_moves _); simpl;
    rewrite ?count_plays_snoc; simpl; lia.
Qed.

(** When the engine's answer is not a legal move, the call leaves the game
    as it is, its cache included. *)
Lemma get_engine_move_miss_keeps s r rnd :
  is_game_over (board (obj s)) = false →
  _move_cache (obj s) !! fen (position (board (obj s))) = None →
  (∀ m, r = PlayResult (Some m) → m ∉ legal_moves (position (board (obj s)))) →
  obj (get_engine_move r rnd s).2 = obj s.
Proof.
  intros Hover Hmiss Hr.
  unfold get_engine_move, get_random_move. unfold_monad. simpl.
  rewrite Hover, Hmiss. simpl.
  destruct (engine (obj s)); simpl;
    [destruct r as [[m|]| |[]]; simpl;
     [rewrite decide_False by (by apply Hr)|..]|];
    simpl; try destruct (legal_moves _); done.
Qed.

(** C7, as the code has it. On a position where the game is not over: if
    the first call finds the position in the cache, or gets from the
    engine a move that is legal, then it returns that move, and a second
    call on the same position returns the same move after a single cache
    lookup, with no request to the engine, so that the two calls together
    send at most one.  If instead the position is not cached, the game has
    an engine and the engine's answer to the first call is not a legal
    move (no result, no move, an illegal move or an exception), the first
    call leaves the cache as it is and the second call asks the engine
    again: the two calls send two requests. *)
Theorem second_call_served_from_cache s r1 rnd1 r2 rnd2 :
  let g := obj s in
  let key := fen (position (board g)) in
  let s1 := (get_engine_move r1 rnd1 s).2 in
  is_game_over (board g) = false →
  (∀ m,
     (_move_cache g !! key = Some m
      ∨ (_move_cache g !! key = None ∧ is_Some (engine g)
         ∧ r1 = PlayResult (Some m) ∧ m ∈ legal_moves (position (board g)))) →
     (get_engine_move r1 rnd1 s).1 = Return (Some m)
     ∧ get_engine_move r2 rnd2 s1
       = (Return (Some m),
          {| obj := obj s1; trace := trace s1 ++ [EvCacheLookup key] |})
     ∧ (count_plays (trace (get_engine_move r2 rnd2 s1).2)
        ≤ count_plays (trace s) + 1)%nat)
  ∧ (_move_cache g !! key = None → is_Some (engine g) →
     (∀ m, r1 = PlayResult (Some m) → m ∉ legal_moves (position (board g))) →
     _move_cache (obj s1) = _move_cache g
     ∧ board (obj s1) = board g
     ∧ count_plays (trace s1) = (count_plays (trace s) + 1)%nat
     ∧ count_plays (trace (get_engine_move r2 rnd2 s1).2)
       = (count_plays (trace s) + 2)%nat).
Proof.
  intros g key s1 Hover. split.
  - intros m Hfirst.
    assert (H1 : get_engine_move r1 rnd1 s
                 = (Return (Some m),
                    match _move_cache g !! key with
                    | Some _ => {| obj := g; trace := trace s ++ [EvCacheLookup key] |}
                    | None =>
                        {| obj := set_move_cache g (<[key := m]> (_move_cache g));
                           trace := (trace s ++ [EvCacheLookup key]) ++ [EvPlay key] |}
                    end)).
    { unfold get_engine_move. unfold_monad. simpl. fold g. rewrite Hover. simpl.
      fold key.
      destruct Hfirst as [Hhit|(Hmiss & [e He] & -> & Hlegal)].
      - by rewrite Hhit.
      - rewrite Hmiss, He. simpl. by rewrite decide_True. }
    assert (H2 : board (obj s1) = board g ∧ _move_cache (obj s1) !! key = Some m).
    { subst s1. rewrite H1. simpl.
      destruct Hfirst as [Hhit|(Hmiss & _)].
      - by rewrite Hhit.
      - rewrite Hmiss. simpl. by rewrite lookup_insert_eq. }
    destruct H2 as [Hb Hc].
    assert (H3 : get_engine_move r2 rnd2 s1
                 = (Return (Some m),
                    {| obj := obj s1; trace := trace s1 ++ [EvCacheLookup key] |})).
    { unfold get_engine_move. unfold_monad. simpl.
      rewrite Hb, Hover. simpl. fold key. by rewrite Hc. }
    split; [by rewrite H1|]. split; [done|].
    rewrite H3. simpl. rewrite count_plays_snoc. simpl.
    subst s1. rewrite H1. simpl.
    destruct (_move_cache g !! key); simpl;
      rewrite ?count_plays_snoc; simpl; lia.
  - intros Hmiss Hengine Hr.
    assert (Hobj : obj s1 = g)
      by (by apply get_engine_move_miss_keeps).
    assert (Hplays : count_plays (trace s1) = S (count_plays (trace s)))
      by (by apply get_engine_move_miss_plays).
    rewrite Hobj. split; [done|]. split; [done|]. split; [lia|].
    rewrite get_engine_move_miss_plays; rewrite ?Hobj; [lia|done..].
Qed.

(** [ChessGame.undo_move] on a game whose history matches its board: with
    no move played it answers [False] and changes nothing; otherwise it
    answers [True] and drops the last entry of the history. *)
Lemma chess_game_undo_move_pops_one s :
  history_matches_board (obj s) →
  (move_history (obj s) = [] → undo_move s = (Return false, s))
  ∧ (move_history (obj s) ≠ [] →
     (undo_move s).1 = Return true
     ∧ move_history (obj (undo_move s).2) = list_pop (move_history (obj s))).
Proof.
  unfold history_matches_board. intros Hs. split.
  - intros Hh. rewrite Hh in Hs. unfold undo_move. unfold_monad.
    rewrite decide_True; [done|].
    apply move_stack_nil. rewrite length_move_stack in Hs.
    by destruct (stack (board (obj s))).
  - intros Hh. unfold undo_move. unfold_monad.
    rewrite decide_False.
    + destruct (pop (board (obj s))) as [b|] eqn:Hpop; simpl.
      * by destruct (move_history (obj s)).
      * unfold pop in Hpop. rewrite length_move_stack in Hs.
        destruct (stack (board (obj s))) as [|[??]?]; [|done].
        by destruct (move_history (obj s)).
    + intros Hnil. rewrite Hnil in Hs. by destruct (move_history (obj s)).
Qed.

End chess_game_properties.

(** ** Properties of the web handlers *)

Section web_properties.
Context {Position : Type} `{!RulesEngine Position}.
Implicit Types (sv : St (@Web.Server Position)) (game : @Web.Game Position).

Lemma server_eta sv :
  {| obj := Web.set_active_games (obj sv) (Web.active_games (obj sv));
     trace := trace sv |} = sv.
Proof. by destruct sv as [[a e] tr]. Qed.

Lemma find_game_Some (srv : @Web.Server Position) o gid game :
  Web.find_game srv o = Some (gid, game) →
  o = Some gid ∧ gid ≠ "" ∧ Web.active_games srv !! gid = Some game.
Proof.
  unfold Web.find_game. destruct o as [g0|]; [|done].
  case_decide; [done|].
  destruct (Web.active_games srv !! g0) eqn:E; simpl; [|done].
  by intros [= <- <-].
Qed.

Lemma update_game_run sv gid game f :
  Web.active_games (obj sv) !! gid = Some game →
  Web.update_game gid f sv
  = (Return tt,
     {| obj := Web.set_active_games (obj sv)
                 (<[gid := f game]> (Web.active_games (obj sv)));
        trace := trace sv |}).
Proof. intros E. unfold Web.update_game. unfold_monad. simpl. by rewrite E. Qed.

Lemma get_game_run sv gid game :
  Web.active_games (obj sv) !! gid = Some game →
  Web.get_game gid sv = (Return game, sv).
Proof. intros E. unfold Web.get_game. unfold_monad. simpl. by rewrite E. Qed.

Lemma web_get_random_move_returns sv b rnd :
  ∃ r tr, Web.get_random_move b rnd sv
          = (Return r, {| obj := obj sv; trace := tr |}).
Proof.
  unfold Web.get_random_move. unfold_monad. destruct sv as [srv tr]. simpl.
  destruct (legal_moves _); eauto.
Qed.

Lemma web_get_engine_move_returns sv b d reply rnd :
  ∃ r tr, Web.get_engine_move b d reply rnd sv
          = (Return r, {| obj := obj sv; trace := tr |}).
Proof.
  unfold Web.get_engine_move. unfold_monad. simpl.
  destruct (Web.manager_engine (obj sv)).
  - destruct reply as [[m|]| |ex]; simpl.
    + destruct (move_truthy m); [eauto|].
      by edestruct web_get_random_move_returns as (r & tr & ->); eauto.
    + by edestruct web_get_random_move_returns as (r & tr & ->); eauto.
    + by edestruct web_get_random_move_returns as (r & tr & ->); eauto.
    + by edestruct web_get_random_move_returns as (r & tr & ->); eauto.
  - apply web_get_random_move_returns.
Qed.

Lemma web_analyze_position_returns sv b reply :
  ∃ r tr, Web.analyze_position b reply sv
          = (Return r, {| obj := obj sv; trace := tr |}).
Proof.
  unfold Web.analyze_position. unfold_monad. destruct sv as [srv tr]. simpl.
  destruct (Web.manager_engine srv); [|eauto].
  destruct reply as [[[cp|n]|]|ex]; simpl; eauto.
Qed.

(** C2. A move request whose move is not among the legal moves of the
    session's position is answered with the error [Illegal move], and the
    whole server state, this session included, is what it was; likewise
    [ChessGame.make_move] answers [False] and changes nothing. *)
Theorem illegal_move_leaves_session_unchanged :
  (∀ sv data reply rnd analyse_reply gid game from_idx to_idx,
      Web.find_game (obj sv) (Web.mv_gameId data) = Some (gid, game) →
      Web.mv_from data ≫= parse_square = Some from_idx →
      Web.mv_to data ≫= parse_square = Some to_idx →
      Web.requested_move (Web.board game) from_idx to_idx
        ∉ legal_moves (position (Web.board game)) →
      Web.make_move data reply rnd analyse_reply sv
      = (Return (Err400 "Illegal move"), sv))
  ∧ (∀ (s : St (@ChessGame Position)) move,
      move ∉ legal_moves (position (board (obj s))) →
      make_move move s = (Return false, s)).
Proof.
  split.
  - intros sv data reply rnd ar gid game f t Hfind Hf Ht Hill.
    unfold Web.make_move, Web.parse_square_arg. unfold_monad. simpl.
    rewrite Hfind, Hf. simpl. rewrite Ht. simpl.
    by rewrite decide_False.
  - intros s move Hill. unfold make_move. unfold_monad. simpl.
    by rewrite decide_False.
Qed.

Lemma undo_last_run sv gid game :
  Web.active_games (obj sv) !! gid = Some game →
  Web.undo_last gid sv
  = (Return tt,
     {| obj := Web.set_active_games (obj sv)
                 (<[gid := Web.undo_game game]> (Web.active_games (obj sv)));
        trace := trace sv |}).
Proof.
  intros E. unfold Web.undo_last, Web.undo_game.
  unfold mbind at 1. unfold M_bind. rewrite (get_game_run _ _ _ E).
  rewrite length_move_stack. unfold pop.
  destruct (stack (Web.board game)) as [|[m p] st] eqn:Hst; simpl.
  - unfold_monad. rewrite insert_id by done. by rewrite server_eta.
  - unfold mbind, M_bind. erewrite update_game_run by done.
    destruct (Web.move_history game) eqn:Hh.
    + unfold_monad. simpl. unfold Web.set_board. by rewrite Hh.
    + erewrite update_game_run by (simpl; apply lookup_insert_eq).
      simpl. rewrite insert_insert_eq.
      unfold Web.set_move_history, Web.set_board. simpl. by rewrite Hh.
Qed.

Lemma undo_game_wf game :
  Web.session_wf game →
  Web.session_wf (Web.undo_game game)
  ∧ Web.move_history (Web.undo_game game) = list_pop (Web.move_history game)
  ∧ Web.mode (Web.undo_game game) = Web.mode game.
Proof.
  unfold Web.session_wf, Web.undo_game. intros Hwf.
  destruct (pop (Web.board game)) as [b|] eqn:Hpop; simpl.
  - apply move_stack_pop in Hpop. split; [|split; [|done]].
    + destruct (Web.move_history game) eqn:Hh; [simpl in *; lia|].
      rewrite length_list_pop. simpl in *. lia.
    + by destruct (Web.move_history game).
  - split; [done|]. split; [|done].
    unfold pop in Hpop. rewrite length_move_stack in Hwf.
    destruct (stack (Web.board game)) as [|[??]?]; [|done].
    by destruct (Web.move_history game).
Qed.

Lemma undo_game_empty game :
  Web.session_wf game → Web.move_history game = [] →
  Web.undo_game game = game.
Proof.
  unfold Web.session_wf, Web.undo_game, pop. rewrite length_move_stack.
  intros Hwf Hh. rewrite Hh in Hwf.
  by destruct (stack (Web.board game)) as [|[??]?].
Qed.

Lemma list_pop_twice {A} (l : list A) :
  list_pop (list_pop l) = take (length l - 2) l.
Proof.
  unfold list_pop. rewrite length_take, take_take. f_equal. lia.
Qed.

Lemma take_list_pop {A} (l : list A) :
  match l with [] => [] | _ :: _ => list_pop l end = take (length l - 1) l.
Proof. by destruct l. Qed.

(** One round of the undo block: either the board has no move and the
    session is left alone, or the last move is taken back from the board
    and the history loses its last entry, if it has one. *)
Lemma undo_game_cases game :
  (move_stack (Web.board game) = [] ∧ Web.undo_game game = game)
  ∨ (∃ b,
       pop (Web.board game) = Some b
       ∧ length (move_stack (Web.board game)) = S (length (move_stack b))
       ∧ Web.undo_game game
         = {| Web.board := b; Web.mode := Web.mode game;
              Web.human_is_white := Web.human_is_white game;
              Web.difficulty := Web.difficulty game;
              Web.show_hints := Web.show_hints game;
              Web.move_history :=
                take (length (Web.move_history game) - 1) (Web.move_history game);
              Web.last_engine_hint := Web.last_engine_hint game |}).
Proof.
  unfold Web.undo_game.
  destruct (pop (Web.board game)) as [b|] eqn:Hpop.
  - right. exists b. split; [done|]. split; [by apply move_stack_pop|].
    by rewrite take_list_pop.
  - left. split; [|done]. apply move_stack_nil.
    unfold pop in Hpop. by destruct (stack (Web.board game)) as [|[??]?].
Qed.

(** C3, as the code has it. The undo route always answers with success,
    showing the session as it stores it, and leaves the other sessions and
    the other fields of the session alone.  What it takes back is decided
    by the moves on the board: in Play mode two moves when the board has
    at least two and the only move when it has one, in every other mode
    the last move; for each move taken back the history loses its last
    entry, as long as it has one.  With no move on the board nothing
    changes at all.  Hence, on a session whose history has one entry per
    move on the board, the history loses two entries in Play mode when
    it has at least two and its only entry when it has one, it loses one
    entry in every other mode, nothing changes on an empty history, and
    the session keeps one history entry per move. *)
Theorem undo_takes_back_board_moves sv gid_opt gid game :
  Web.find_game (obj sv) gid_opt = Some (gid, game) →
  ∃ game',
    Web.undo_move gid_opt sv
    = (Return (Ok200 (Web.view (Web.board game') (Web.move_history game'))),
       {| obj := {| Web.active_games :=
                      <[gid := game']> (Web.active_games (obj sv));
                    Web.manager_engine := Web.manager_engine (obj sv) |};
          trace := trace sv |})
    ∧ (Web.mode game' = Web.mode game
       ∧ Web.human_is_white game' = Web.human_is_white game
       ∧ Web.difficulty game' = Web.difficulty game
       ∧ Web.show_hints game' = Web.show_hints game
       ∧ Web.last_engine_hint game' = Web.last_engine_hint game)
    ∧ (Web.mode game = "Play" →
       2 ≤ length (move_stack (Web.board game)) →
       pop (Web.board game) ≫= pop = Some (Web.board game')
       ∧ Web.move_history game'
         = take (length (Web.move_history game) - 2) (Web.move_history game))
    ∧ (Web.mode game = "Play" →
       length (move_stack (Web.board game)) = 1 →
       pop (Web.board game) = Some (Web.board game')
       ∧ Web.move_history game'
         = take (length (Web.move_history game) - 1) (Web.move_history game))
    ∧ (Web.mode game ≠ "Play" →
       1 ≤ length (move_stack (Web.board game)) →
       pop (Web.board game) = Some (Web.board game')
       ∧ Web.move_history game'
         = take (length (Web.move_history game) - 1) (Web.move_history game))
    ∧ (move_stack (Web.board game) = [] →
       game' = game
       ∧ Web.undo_move gid_opt sv
         = (Return (Ok200 (Web.view (Web.board game) (Web.move_history game))),
            sv))
    ∧ (length (Web.move_history game) = length (move_stack (Web.board game)) →
       length (Web.move_history game') = length (move_stack (Web.board game'))
       ∧ (Web.mode game = "Play" → 2 ≤ length (Web.move_history game) →
          Web.move_history game'
          = take (length (Web.move_history game) - 2) (Web.move_history game))
       ∧ (Web.mode game = "Play" → length (Web.move_history game) = 1 →
          Web.move_history game' = [])
       ∧ (Web.mode game ≠ "Play" → 1 ≤ length (Web.move_history game) →
          Web.move_history game'
          = take (length (Web.move_history game) - 1) (Web.move_history game))
       ∧ (Web.move_history game = [] →
          game' = game
          ∧ Web.undo_move gid_opt sv
            = (Return (Ok200 (Web.view (Web.board game) [])), sv))).
Proof.
  intros Hfind.
  destruct (find_game_Some _ _ _ _ Hfind) as (-> & Hne & Hlook).
  set (game' := if decide (Web.mode game = "Play")
                then Web.undo_game (Web.undo_game game)
                else Web.undo_game game).
  assert (Hrun : Web.undo_move (Some gid) sv
    = (Return (Ok200 (Web.view (Web.board game') (Web.move_history game'))),
       {| obj := {| Web.active_games :=
                      <[gid := game']> (Web.active_games (obj sv));
                    Web.manager_engine := Web.manager_engine (obj sv) |};
          trace := trace sv |})).
  { unfold Web.undo_move. unfold mbind at 1. unfold M_bind, get.
    rewrite Hfind. subst game'. unfold mbind at 1. unfold M_bind.
    destruct (decide (Web.mode game = "Play")).
    - unfold mbind at 1. unfold M_bind.
      rewrite (undo_last_run _ _ _ Hlook).
      erewrite undo_last_run by (simpl; apply lookup_insert_eq).
      simpl. rewrite insert_insert_eq.
      unfold mbind, M_bind.
      erewrite get_game_run by (simpl; apply lookup_insert_eq). done.
    - rewrite (undo_last_run _ _ _ Hlook).
      unfold mbind, M_bind.
      erewrite get_game_run by (simpl; apply lookup_insert_eq). done. }
  assert (Hnil : move_stack (Web.board game) = [] →
            game' = game
            ∧ Web.undo_move (Some gid) sv
              = (Return (Ok200 (Web.view (Web.board game) (Web.move_history game))),
                 sv)).
  { intros Hst.
    assert (Hsame : Web.undo_game game = game).
    { destruct (undo_game_cases game) as [[_ E]|(b & _ & Hlen & _)]; [done|].
      by rewrite Hst in Hlen. }
    assert (Hg : game' = game).
    { subst game'. case_decide; by rewrite !Hsame. }
    split; [done|]. rewrite Hrun, Hg, insert_id by done.
    by destruct sv as [[a e] tr]. }
  assert (Hone : 1 ≤ length (move_stack (Web.board game)) →
            pop (Web.board game) = Some (Web.board (Web.undo_game game))
            ∧ Web.move_history (Web.undo_game game)
              = take (length (Web.move_history game) - 1) (Web.move_history game)
            ∧ length (move_stack (Web.board game))
              = S (length (move_stack (Web.board (Web.undo_game game))))).
  { intros Hlen.
    destruct (undo_game_cases game) as [[E _]|(b & Hpop & Hl & ->)].
    - rewrite E in Hlen. cbn in Hlen. lia.
    - cbn. by rewrite Hpop. }
  assert (Htwo : 2 ≤ length (move_stack (Web.board game)) →
            pop (Web.board game) ≫= pop
            = Some (Web.board (Web.undo_game (Web.undo_game game)))
            ∧ Web.move_history (Web.undo_game (Web.undo_game game))
              = take (length (Web.move_history game) - 2) (Web.move_history game)).
  { intros Hlen. destruct Hone as (Hp1 & Hh1 & Hl1); [lia|].
    destruct (undo_game_cases (Web.undo_game game)) as [[E _]|(b & Hpop & Hl & E)].
    - rewrite Hl1, E in Hlen. cbn in Hlen. lia.
    - rewrite Hp1. cbn [mbind option_bind]. rewrite Hpop, E. cbn.
      split; [done|]. rewrite Hh1, length_take, take_take. f_equal. lia. }
  assert (Hfields : ∀ g : @Web.Game Position,
            Web.mode (Web.undo_game g) = Web.mode g
            ∧ Web.human_is_white (Web.undo_game g) = Web.human_is_white g
            ∧ Web.difficulty (Web.undo_game g) = Web.difficulty g
            ∧ Web.show_hints (Web.undo_game g) = Web.show_hints g
            ∧ Web.last_engine_hint (Web.undo_game g) = Web.last_engine_hint g).
  { intros g. unfold Web.undo_game. by destruct (pop (Web.board g)). }
  assert (Hplay1 : Web.mode game = "Play" →
            length (move_stack (Web.board game)) = 1 →
            pop (Web.board game) = Some (Web.board game')
            ∧ Web.move_history game'
              = take (length (Web.move_history game) - 1) (Web.move_history game)).
  { intros Hplay Hlen. subst game'. rewrite decide_True by done.
    destruct Hone as (Hp1 & Hh1 & Hl1); [lia|].
    destruct (undo_game_cases (Web.undo_game game)) as [[_ E]|(b & _ & Hl & _)].
    - by rewrite E.
    - lia. }
  exists game'. split; [done|].
  split.
  { subst game'. destruct (Hfields game) as (? & ? & ? & ? & ?).
    destruct (Hfields (Web.undo_game game)) as (? & ? & ? & ? & ?).
    case_decide; repeat split; congruence. }
  split.
  { intros Hplay Hlen. subst game'. rewrite decide_True by done. by apply Htwo. }
  split; [done|].
  split.
  { intros Hmode Hlen. subst game'. rewrite decide_False by done.
    destruct Hone as (? & ? & _); done. }
  split; [done|].
  intros Hwf.
  destruct (undo_game_wf game Hwf) as (Hwf1 & _ & _).
  destruct (undo_game_wf _ Hwf1) as (Hwf2 & _ & _).
  split; [subst game'; by case_decide|].
  split.
  { intros Hplay Hlen. rewrite Hwf in Hlen. subst game'.
    rewrite decide_True by done. by apply Htwo. }
  split.
  { intros Hplay Hlen. rewrite Hwf in Hlen.
    destruct (Hplay1 Hplay Hlen) as [_ ->]. rewrite Hwf, Hlen. done. }
  split.
  { intros Hmode Hlen. rewrite Hwf in Hlen. subst game'.
    rewrite decide_False by done. destruct Hone as (? & ? & _); done. }
  intros Hh.
  assert (Hst : move_stack (Web.board game) = []).
  { rewrite Hh in Hwf. by destruct (move_stack (Web.board game)). }
  destruct (Hnil Hst) as [Hg Hr]. split; [done|]. by rewrite Hr, Hh.
Qed.

(** *** Handlers keep the stored hints *)

Lemma same_hints_refl (a : gmap string (@Web.Game Position)) :
  Web.same_hints a a.
Proof. intros gid g E. eauto. Qed.

Lemma same_hints_trans (a b c : gmap string (@Web.Game Position)) :
  Web.same_hints a b → Web.same_hints b c → Web.same_hints a c.
Proof.
  intros Hab Hbc gid g E.
  destruct (Hab _ _ E) as (g1 & E1 & H1).
  destruct (Hbc _ _ E1) as (g2 & E2 & H2).
  exists g2. split; [done|congruence].
Qed.

Lemma keeps_ret {A} (a : A) : Web.keeps_hints (Position:=Position) (mret a).
Proof. intros sv. apply same_hints_refl. Qed.

Lemma keeps_raise {A} e : Web.keeps_hints (Position:=Position) (A:=A) (raise e).
Proof. intros sv. apply same_hints_refl. Qed.

Lemma keeps_get : Web.keeps_hints (Position:=Position) get.
Proof. intros sv. apply same_hints_refl. Qed.

Lemma keeps_emit e : Web.keeps_hints (Position:=Position) (emit e).
Proof. intros sv. apply same_hints_refl. Qed.

Lemma keeps_bind {A B} (m : M (@Web.Server Position) A)
    (k : A → M (@Web.Server Position) B) :
  Web.keeps_hints m → (∀ a, Web.keeps_hints (k a)) →
  Web.keeps_hints (m ≫= k).
Proof.
  intros Hm Hk sv. unfold mbind, M_bind.
  specialize (Hm sv). destruct (m sv) as [[a|e] sv1]; simpl in *; [|done].
  eapply same_hints_trans; [done|]. apply Hk.
Qed.

Lemma keeps_try_except {A} (m : M (@Web.Server Position) A) h :
  Web.keeps_hints m → (∀ e k, h e = Some k → Web.keeps_hints k) →
  Web.keeps_hints (try_except m h).
Proof.
  intros Hm Hh sv. unfold try_except.
  specialize (Hm sv). destruct (m sv) as [[a|e] sv1]; simpl in *; [done|].
  destruct (h e) as [k|] eqn:E; [|done].
  eapply same_hints_trans; [done|]. by eapply Hh.
Qed.

Lemma keeps_update_game gid (f : @Web.Game Position → Web.Game) :
  (∀ g, Web.last_engine_hint (f g) = Web.last_engine_hint g) →
  Web.keeps_hints (Web.update_game gid f).
Proof.
  intros Hf sv. unfold Web.update_game. unfold_monad. simpl.
  destruct (Web.active_games (obj sv) !! gid) as [g0|] eqn:E; simpl;
    [|apply same_hints_refl].
  intros gid' g E'. rewrite lookup_insert. case_decide as Hg.
  - subst gid'. exists (f g0). split; [done|]. rewrite Hf. congruence.
  - eauto.
Qed.

Lemma keeps_get_game gid :
  Web.keeps_hints (Position:=Position) (Web.get_game gid).
Proof.
  intros sv. unfold Web.get_game. unfold_monad. simpl.
  destruct (_ !! gid); apply same_hints_refl.
Qed.

Lemma keeps_of_returns {A} (m : M (@Web.Server Position) A) :
  (∀ sv, ∃ r tr, m sv = (Return r, {| obj := obj sv; trace := tr |})) →
  Web.keeps_hints m.
Proof.
  intros Hm sv. destruct (Hm sv) as (r & tr & ->). apply same_hints_refl.
Qed.

Ltac keeps_step :=
  first
    [ apply keeps_ret | apply keeps_raise | apply keeps_get
    | apply keeps_emit | apply keeps_get_game
    | apply keeps_update_game; by intros []
    | apply keeps_of_returns; intros;
      first [ apply web_get_engine_move_returns
            | apply web_analyze_position_returns ]
    | apply keeps_bind; [|intros]
    | match goal with
      | |- Web.keeps_hints (match ?x with _ => _ end) => destruct x
      end ].

(** C8, as the code has it. The move route never touches the stored
    hint: whatever the request and however the call ends, every session
    is still registered afterwards and holds the hint it held before. *)
Theorem make_move_keeps_last_hint sv data reply rnd analyse_reply gid game :
  Web.active_games (obj sv) !! gid = Some game →
  ∃ game',
    Web.active_games (obj (Web.make_move data reply rnd analyse_reply sv).2)
      !! gid = Some game'
    ∧ Web.last_engine_hint game' = Web.last_engine_hint game.
Proof.
  revert sv gid game.
  change (Web.keeps_hints (Web.make_move data reply rnd analyse_reply)).
  unfold Web.make_move, Web.parse_square_arg.
  repeat keeps_step.
Qed.

(** *** Creating a session *)

(** C5, as the code has it. The mode of a create-session request is not
    checked: when the human plays White, whatever the mode string, the
    call succeeds without any request to the engine, and registers under
    the identifier it returns a session at the start position, with an
    empty history, that stores the mode as given. *)
Theorem new_game_accepts_any_mode sv data now reply rnd :
  default "white" (Web.rq_color data) = "white" →
  Web.new_game data now reply rnd sv
  = (Return (pretty now, Web.view new_board []),
     {| obj := Web.set_active_games (obj sv)
                 (<[pretty now := Web.fresh_game (default "Play" (Web.rq_mode data))
                                    true new_board]>
                    (Web.active_games (obj sv)));
        trace := trace sv |}).
Proof.
  intros Hwhite. unfold Web.new_game. unfold_monad. simpl.
  rewrite Hwhite. rewrite bool_decide_eq_true_2 by done. simpl.
  unfold Web.get_game. unfold_monad. simpl.
  by rewrite lookup_insert_eq.
Qed.

(** C1, what the code does. When the human plays Black in a mode other
    than Self-Practice and [get_engine_move] yields a move for White, the
    move is pushed on the board first and its notation is asked on the
    position that results.  Whenever the rules library refuses that (the
    origin square of the move is empty by then), [new_game] ends with the
    exception instead of an answer, and the session stays registered with
    the move on its board and an empty history. *)
Theorem new_game_as_black_raises sv data now reply rnd m tr :
  default "white" (Web.rq_color data) ≠ "white" →
  default "Play" (Web.rq_mode data) ≠ "Self-Practice" →
  Web.get_engine_move new_board 3 reply rnd sv
  = (Return (Some m), {| obj := obj sv; trace := tr |}) →
  move_truthy m = true →
  san (apply_move start_position m) m = None →
  Web.new_game data now reply rnd sv
  = (Raise AssertionError,
     {| obj := Web.set_active_games (obj sv)
                 (<[pretty now := Web.fresh_game (default "Play" (Web.rq_mode data))
                                    false (push new_board m)]>
                    (Web.active_games (obj sv)));
        trace := tr |}).
Proof.
  intros Hblack Hmode Hengine Htruthy Hsan.
  unfold Web.new_game.
  unfold mbind at 1. unfold M_bind, get.
  unfold mbind at 1. unfold M_bind, put. cbn [obj trace].
  rewrite bool_decide_eq_false_2 by done.
  rewrite (bool_decide_eq_false_2 _ Hmode). cbn [negb andb].
  unfold mbind at 1. unfold M_bind.
  unfold mbind at 1. unfold M_bind.
  assert (Hengine' : ∀ a,
    Web.get_engine_move new_board 3 reply rnd
      {| obj := Web.set_active_games (obj sv) a; trace := trace sv |}
    = (Return (Some m),
       {| obj := Web.set_active_games (obj sv) a; trace := tr |})).
  { intros a. revert Hengine.
    unfold Web.get_engine_move, Web.get_random_move. unfold_monad. simpl.
    destruct sv as [[a0 e0] tr0]. simpl.
    destruct e0; [destruct reply as [[m0|]| |ex]; simpl;
                  [destruct (move_truthy m0)|..]|];
      repeat match goal with
             | |- context [match legal_moves ?p with _ => _ end] =>
                 destruct (legal_moves p)
             end; simpl; congruence. }
  rewrite Hengine'. rewrite Htruthy.
  unfold mbind at 1. unfold M_bind.
  erewrite update_game_run by (simpl; apply lookup_insert_eq).
  cbn [obj trace Web.set_active_games Web.active_games Web.manager_engine].
  rewrite insert_insert_eq.
  unfold mbind at 1. unfold M_bind.
  erewrite get_game_run by (simpl; apply lookup_insert_eq).
  simpl. rewrite Hsan. done.
Qed.

(** *** Difficulty *)

Lemma skill_level_of_table (level : Z) :
  skill_level_of level
  = (if decide (level = 1) then 0
     else if decide (level = 2) then 5
     else if decide (level = 3) then 10
     else if decide (level = 4) then 20
     else 10)%Z.
Proof.
  unfold skill_level_of.
  destruct level as [|[[p|p|]|[p|p|]|]|p]; try reflexivity;
    destruct p; reflexivity.
Qed.

(** C6, as the code has it. The web route clamps the level into 1..4 (a
    level below 1 becomes 1, a level above 4 becomes 4, a level in between
    is kept), stores the clamped value in the session, changing no other
    field and no other session, answers with it, and sends nothing to the
    engine; a request without a level is read as level 3.
    [ChessGame.set_difficulty] stores the level as it is given, changing no
    other field; when the game has an engine it asks it for the skill level
    0, 5, 10 or 20 for the levels 1, 2, 3 and 4 and for 10 for any other
    level, and the call ends normally whether the engine accepts or raises
    [EngineError] or its subclass [EngineTerminatedError]; without an
    engine it asks nothing. *)
Theorem set_difficulty_stores_level :
  (∀ sv gid_opt gid game level,
      Web.find_game (obj sv) gid_opt = Some (gid, game) →
      (1 ≤ Z.max 1 (Z.min 4 level) ≤ 4)%Z
      ∧ (level < 1 → Z.max 1 (Z.min 4 level) = 1)%Z
      ∧ (1 ≤ level ≤ 4 → Z.max 1 (Z.min 4 level) = level)%Z
      ∧ (4 < level → Z.max 1 (Z.min 4 level) = 4)%Z
      ∧ Web.set_difficulty gid_opt (Some level) sv
        = (Return (Ok200 (true, Z.max 1 (Z.min 4 level))),
           {| obj :=
                {| Web.active_games :=
                     <[gid := {| Web.board := Web.board game;
                                 Web.mode := Web.mode game;
                                 Web.human_is_white := Web.human_is_white game;
                                 Web.difficulty := Z.max 1 (Z.min 4 level);
                                 Web.show_hints := Web.show_hints game;
                                 Web.move_history := Web.move_history game;
                                 Web.last_engine_hint := Web.last_engine_hint game |}]>
                       (Web.active_games (obj sv));
                   Web.manager_engine := Web.manager_engine (obj sv) |};
              trace := trace sv |})
      ∧ Web.set_difficulty gid_opt None sv
        = Web.set_difficulty gid_opt (Some 3%Z) sv)
  ∧ (∀ (s : St (@ChessGame Position)) level configure_reply,
      let skill_level :=
        (if decide (level = 1) then 0
         else if decide (level = 2) then 5
         else if decide (level = 3) then 10
         else if decide (level = 4) then 20
         else 10)%Z in
      let stored :=
        {| board := board (obj s); mode := mode (obj s);
           engine := engine (obj s); difficulty_level := level;
           show_hints := show_hints (obj s);
           current_evaluation := current_evaluation (obj s);
           last_move := last_move (obj s);
           _move_cache := _move_cache (obj s);
           move_history := move_history (obj s) |} in
      (engine (obj s) = None →
       set_difficulty level configure_reply s
       = (Return tt, {| obj := stored; trace := trace s |}))
      ∧ (is_Some (engine (obj s)) →
         configure_reply = None ∨ configure_reply = Some EngineError
         ∨ configure_reply = Some EngineTerminatedError →
         set_difficulty level configure_reply s
         = (Return tt,
            {| obj := stored;
               trace := trace s ++ [EvConfigure [("Skill Level", skill_level)]] |}))).
Proof.
  split.
  - intros sv gid_opt gid game level Hfind.
    split; [lia|]. split; [lia|]. split; [lia|]. split; [lia|].
    split; [|reflexivity].
    destruct (find_game_Some _ _ _ _ Hfind) as (-> & Hne & Hlook).
    unfold Web.set_difficulty. unfold mbind at 1. unfold M_bind, get.
    rewrite Hfind. unfold mbind, M_bind.
    by erewrite update_game_run by done.
  - intros s level cfg skill_level stored. subst skill_level stored.
    rewrite <- skill_level_of_table. split.
    + intros He. unfold set_difficulty, set_difficulty_level. unfold_monad.
      simpl. by rewrite He.
    + intros [e He] [->|[->| ->]];
        unfold set_difficulty, set_difficulty_level; unfold_monad; simpl;
        by rewrite He.
Qed.

End web_properties.

(** ** The statements on concrete games *)

Section concrete_games.
Import Demo.

Local Ltac compute_elem :=
  first [ apply (bool_decide_unpack _); vm_compute; exact I
        | apply (bool_decide_eq_false_1 _); vm_compute; reflexivity ].

(** On the board with two bare kings the game is over: the call answers
    [None] and the game is untouched. *)
Lemma get_engine_move_game_over_witness :
  is_game_over (board (obj game_finished)) = true
  ∧ get_engine_move (PlayResult (Some Mini.e2e4)) 0 game_finished
    = (Return None, game_finished).
Proof.
  split; [reflexivity|].
  apply get_engine_move_game_over. reflexivity.
Defined.

(** A fresh game, then e2-e4 played and taken back. *)
Lemma history_matches_board_witness :
  history_matches_board (obj game0)
  ∧ history_matches_board
      (obj (undo_move (make_move Mini.e2e4 game0).2).2).
Proof.
  destruct (history_matches_board_invariant (Position:=Mini.Position))
    as (Hinit & Hmake & Hundo).
  split; [apply Hinit|]. apply Hundo, Hmake, Hinit.
Defined.

(** The engine's legal e2-e4 is cached; after the illegal suggestion e2-e5
    the cache is still empty. *)
Lemma move_cache_witness :
  cache_sound
    (_move_cache (obj (get_engine_move (PlayResult (Some Mini.e2e4)) 0 game0).2))
  ∧ _move_cache
      (obj (get_engine_move (PlayResult (Some Mini.e2e5)) 0 game0).2)
    = _move_cache (obj game0).
Proof.
  split.
  - apply (move_cache_holds_verified_moves game0).
    intros k m. simpl. by rewrite lookup_empty.
  - apply (move_cache_holds_verified_moves game0).
    right. simpl. compute_elem.
Defined.

(** The engine answers e2-e4 once; the second call returns e2-e4 although
    the engine has terminated meanwhile.  When the engine suggests the
    illegal e2-e5 twice, it is asked twice. *)
Lemma second_call_witness :
  let s1 := (get_engine_move (PlayResult (Some Mini.e2e4)) 0 game0).2 in
  let s1' := (get_engine_move (PlayResult (Some Mini.e2e5)) 0 game0).2 in
  ((get_engine_move (PlayResult (Some Mini.e2e4)) 0 game0).1
   = Return (Some Mini.e2e4)
   ∧ (get_engine_move (PlayRaises EngineTerminatedError) 0 s1).1
     = Return (Some Mini.e2e4)
   ∧ (count_plays (trace (get_engine_move (PlayRaises EngineTerminatedError) 0 s1).2)
      ≤ count_plays (trace game0) + 1)%nat)
  ∧ (_move_cache (obj s1') = _move_cache (obj game0)
     ∧ count_plays (trace (get_engine_move (PlayResult (Some Mini.e2e5)) 0 s1').2)
       = (count_plays (trace game0) + 2)%nat).
Proof.
  cbv zeta. split.
  - destruct (second_call_served_from_cache game0
                (PlayResult (Some Mini.e2e4)) 0
                (PlayRaises EngineTerminatedError) 0) as [Hhit _];
      [reflexivity|].
    destruct (Hhit Mini.e2e4) as (H1 & H2 & H3).
    + right. split; [reflexivity|]. split; [by eexists|].
      split; [reflexivity|]. simpl. compute_elem.
    + split; [exact H1|]. split; [|exact H3].
      rewrite H2. reflexivity.
  - destruct (second_call_served_from_cache game0
                (PlayResult (Some Mini.e2e5)) 0
                (PlayResult (Some Mini.e2e5)) 0) as [_ Hmiss];
      [reflexivity|].
    destruct Hmiss as (Hc & _ & _ & Hn).
    + reflexivity.
    + by eexists.
    + intros m [= <-]. simpl. compute_elem.
    + split; [exact Hc|exact Hn].
Defined.

(** C7, the claim as written fails: with an engine that has terminated,
    the first call falls back on a random move and caches nothing, so the
    second call on the same position asks the engine again: two requests
    for two calls. *)
Lemma two_calls_two_engine_requests :
  let s1 := (get_engine_move (PlayRaises EngineTerminatedError) 0 game0).2 in
  let s2 := (get_engine_move (PlayRaises EngineTerminatedError) 1 s1).2 in
  count_plays (trace game0) = 0
  ∧ board (obj s1) = board (obj game0)
  ∧ count_plays (trace s2) = 2
  ∧ ¬ (count_plays (trace s2) ≤ 1)%nat.
Proof.
  assert (E : count_plays
    (trace (get_engine_move (PlayRaises EngineTerminatedError) 1
              (get_engine_move (PlayRaises EngineTerminatedError) 0 game0).2).2)
    = 2) by (vm_compute; reflexivity).
  cbv zeta. split; [vm_compute; reflexivity|].
  split; [vm_compute; reflexivity|].
  split; [exact E|]. rewrite E. lia.
Qed.

(** The request e2-e5 on the start position is refused. *)
Lemma illegal_move_witness :
  Web.make_move (move_request gid "e2" "e5") (PlayResult None) 0
    (AnalyseInfo None) server_practice
  = (Return (Err400 "Illegal move"), server_practice)
  ∧ make_move Mini.e2e5 game0 = (Return false, game0).
Proof.
  destruct (illegal_move_leaves_session_unchanged (Position:=Mini.Position))
    as [Hweb Hgame].
  split.
  - eapply (Hweb server_practice _ _ _ _ gid _ 12 36).
    + vm_compute. reflexivity.
    + reflexivity.
    + reflexivity.
    + compute_elem.
  - apply Hgame. simpl. compute_elem.
Defined.

(** Undo in a Practice session after e2-e4 takes the move back from the
    board and empties the history. *)
Lemma undo_witness :
  ∃ game,
    session_of server_after_e4 = Some game
    ∧ Web.move_history game = ["e4"]
    ∧ move_stack (Web.board game) = [Mini.e2e4]
    ∧ ∃ game',
        (Web.undo_move (Some gid) server_after_e4).1
        = Return (Ok200 (Web.view (Web.board game') (Web.move_history game')))
        ∧ Web.board game' = new_board
        ∧ Web.move_history game' = [].
Proof.
  destruct (session_of server_after_e4) as [game|] eqn:E;
    [|by vm_compute in E].
  exists game. split; [done|].
  assert (Hh : Web.move_history game = ["e4"]).
  { vm_compute in E. by injection E as <-. }
  assert (Hst : Web.board game = push new_board Mini.e2e4).
  { vm_compute in E. by injection E as <-. }
  assert (Hmode : Web.mode game ≠ "Play").
  { vm_compute in E. by injection E as <-. }
  split; [done|]. split; [rewrite Hst; reflexivity|].
  destruct (undo_takes_back_board_moves server_after_e4 (Some gid) gid game)
    as (game' & Hrun & _ & _ & _ & Hother & _).
  - unfold Web.find_game. rewrite decide_False by done.
    unfold session_of in E. by rewrite E.
  - exists game'. split; [rewrite Hrun; reflexivity|].
    destruct (Hother Hmode) as [Hpop Hhist];
      [rewrite Hst; cbn; lia|].
    rewrite Hst, pop_push in Hpop. injection Hpop as Hb.
    split; [symmetry; exact Hb|].
    rewrite Hhist, Hh. reflexivity.
Defined.

(** C3, the claim as written fails.  The session left by a create-session
    request as Black (the engine opening with e2-e4) has an empty history
    and one move on its board: undo answers with success, yet it is no
    no-op, the move is taken back and the session is at the start position
    again. *)
Lemma undo_on_empty_history_changes_board :
  ∃ game game',
    session_of server_black = Some game
    ∧ Web.move_history game = []
    ∧ Web.board game = push new_board Mini.e2e4
    ∧ Web.undo_move (Some gid) server_black
      = (Return (Ok200 (Web.view new_board [])),
         {| obj := {| Web.active_games := {[ gid := game' ]};
                      Web.manager_engine := Some SimpleEngine |};
            trace := trace server_black |})
    ∧ Web.board game' = new_board
    ∧ Web.board game' ≠ Web.board game
    ∧ (Web.undo_move (Some gid) server_black).2 ≠ server_black.
Proof.
  eexists _, _. split; [vm_compute; reflexivity|].
  split; [reflexivity|]. split; [reflexivity|].
  split; [vm_compute; reflexivity|].
  split; [reflexivity|].
  split; [discriminate|].
  vm_compute. discriminate.
Qed.

(** A request with the mode [Blitz], the human playing White. *)
Lemma new_game_any_mode_witness :
  (Web.new_game (play_as "Blitz" "white") now (PlayResult None) 0 server0).1
  = Return (gid, Web.view new_board []).
Proof.
  rewrite (new_game_accepts_any_mode server0 (play_as "Blitz" "white"));
    reflexivity.
Defined.

(** C5, the claim as written fails: a request with the unknown mode
    [Blitz] is answered with a session, and that session is registered
    with the mode [Blitz]; no error is raised. *)
Lemma unknown_mode_creates_session :
  let run := Web.new_game (play_as "Blitz" "white") now (PlayResult None) 0
               server0 in
  ("Blitz" ∉ ["Play"; "Practice"; "Self-Practice"])
  ∧ run.1 = Return (gid, Web.view new_board [])
  ∧ Web.mode <$> session_of run.2 = Some "Blitz".
Proof.
  split; [compute_elem|].
  split; vm_compute; reflexivity.
Qed.

(** A Play session as Black, the engine opening with e2-e4: the call ends
    with the exception, the session holds one move and no history entry. *)
Lemma new_game_as_black_witness :
  ∃ sv',
    Web.new_game (play_as "Play" "black") now (PlayResult (Some Mini.e2e4)) 0
      server0
    = (Raise AssertionError, sv')
    ∧ (Web.move_history <$> session_of sv') = Some []
    ∧ ((λ g, length (move_stack (Web.board g))) <$> session_of sv') = Some 1.
Proof.
  eexists. split.
  - apply (new_game_as_black_raises server0 (play_as "Play" "black") now
             (PlayResult (Some Mini.e2e4)) 0 Mini.e2e4
             [EvPlay (fen Mini.start)]).
    + by vm_compute.
    + by vm_compute.
    + reflexivity.
    + reflexivity.
    + reflexivity.
  - split; vm_compute; reflexivity.
Defined.

(** The hint stored before e2-e4 is the hint stored after it. *)
Lemma make_move_keeps_hint_witness :
  ∃ game game',
    session_of server_hinted = Some game
    ∧ session_of
        (Web.make_move (move_request gid "e2" "e4") (PlayResult None) 0
           (AnalyseInfo None) server_hinted).2 = Some game'
    ∧ Web.last_engine_hint game' = Web.last_engine_hint game.
Proof.
  destruct (session_of server_hinted) as [game|] eqn:E;
    [|by vm_compute in E].
  destruct (make_move_keeps_last_hint server_hinted
              (move_request gid "e2" "e4") (PlayResult None) 0
              (AnalyseInfo None) gid game E) as (game' & E' & Hh).
  exists game, game'. split; [reflexivity|]. split; [exact E'|exact Hh].
Defined.

(** C8, the claim as written fails: after a hint was stored, the legal
    move e2-e4 is applied with success, and the session still holds the
    hint. *)
Lemma hint_survives_applied_move :
  let hint := ("g1", "f3", "Knight from g1 to f3") in
  let run := Web.make_move (move_request gid "e2" "e4") (PlayResult None) 0
               (AnalyseInfo None) server_hinted in
  Web.last_engine_hint <$> session_of server_hinted = Some (Some hint)
  ∧ (∃ body, run.1 = Return (Ok200 body)
             ∧ Web.moveHistory (Web.mr_state body) = ["e4"])
  ∧ Web.last_engine_hint <$> session_of run.2 = Some (Some hint)
  ∧ Web.last_engine_hint <$> session_of run.2 ≠ Some None.
Proof.
  split; [vm_compute; reflexivity|].
  split; [eexists; split; vm_compute; reflexivity|].
  split; [vm_compute; reflexivity|].
  vm_compute. discriminate.
Qed.

(** Level 9 through the web route, and through
    [ChessGame.set_difficulty] with an engine that has terminated. *)
Lemma set_difficulty_witness :
  (∃ game,
      session_of server_practice = Some game
      ∧ (Web.set_difficulty (Some gid) (Some 9%Z) server_practice).1
        = Return (Ok200 (true, 4%Z)))
  ∧ (set_difficulty 9 (Some EngineTerminatedError) game0).1 = Return tt
  ∧ difficulty_level (obj (set_difficulty 9 (Some EngineTerminatedError) game0).2)
    = 9%Z
  ∧ trace (set_difficulty 9 (Some EngineTerminatedError) game0).2
    = trace game0 ++ [EvConfigure [("Skill Level", 10%Z)]].
Proof.
  destruct (set_difficulty_stores_level (Position:=Mini.Position))
    as [Hweb Hgame].
  split.
  - destruct (session_of server_practice) as [game|] eqn:E;
      [|by vm_compute in E].
    destruct (Hweb server_practice (Some gid) gid game 9%Z)
      as (_ & _ & _ & _ & Hrun & _).
    + unfold Web.find_game. rewrite decide_False by done.
      unfold session_of in E. by rewrite E.
    + exists game. split; [reflexivity|]. rewrite Hrun. reflexivity.
  - destruct (Hgame game0 9%Z (Some EngineTerminatedError)) as (_ & Hrun).
    rewrite Hrun; [|by eexists|by right; right].
    split; [reflexivity|]. split; reflexivity.
Defined.

(** C6, the claim as written fails: [ChessGame.set_difficulty] stores the
    level 9 unclamped, and the web route, which does clamp, sends nothing
    to the running engine. *)
Lemma set_difficulty_neither_clamps_nor_forwards :
  difficulty_level (obj (set_difficulty 9 None game0).2) = 9%Z
  ∧ ¬ (1 ≤ 9 ≤ 4)%Z
  ∧ Web.manager_engine (obj server_practice) = Some SimpleEngine
  ∧ (Web.set_difficulty (Some gid) (Some 9%Z) server_practice).1
    = Return (Ok200 (true, 4%Z))
  ∧ trace (Web.set_difficulty (Some gid) (Some 9%Z) server_practice).2
    = trace server_practice.
Proof.
  split; [reflexivity|]. split; [lia|].
  split; [reflexivity|]. split; vm_compute; reflexivity.
Qed.

End concrete_games.

(** ** Further properties: the random fallback and the engine calls *)

Section engine_calls.
Context {Position : Type} `{!RulesEngine Position}.
Implicit Types (s : St (@ChessGame Position)) (sv : St (@Web.Server Position)).

Lemma pick_is_legal (l : list Move) (rnd : nat) :
  l ≠ [] → ∃ m, l !! (rnd `mod` length l)%nat = Some m ∧ m ∈ l.
Proof.
  intros Hl.
  assert (Hlt : (rnd `mod` length l < length l)%nat).
  { apply Nat.mod_upper_bound. by destruct l. }
  destruct (lookup_lt_is_Some_2 _ _ Hlt) as [m Hm].
  exists m. split; [done|]. by eapply list_elem_of_lookup_2.
Qed.

Lemma get_random_move_run s rnd :
  get_random_move rnd s
  = match legal_moves (position (board (obj s))) with
    | [] => (Return None, s)
    | m0 :: l0 =>
        let l := m0 :: l0 in
        (Return (l !! (rnd `mod` length l)%nat),
         {| obj := obj s; trace := trace s ++ [EvRandom (length l)] |})
    end.
Proof.
  unfold get_random_move. unfold_monad. destruct s as [g tr].
  cbn [obj trace]. by destruct (legal_moves _).
Qed.

Lemma web_get_random_move_run sv b rnd :
  Web.get_random_move b rnd sv
  = match legal_moves (position b) with
    | [] => (Return None, sv)
    | m0 :: l0 =>
        let l := m0 :: l0 in
        (Return (l !! (rnd `mod` length l)%nat),
         {| obj := obj sv; trace := trace sv ++ [EvRandom (length l)] |})
    end.
Proof.
  unfold Web.get_random_move. unfold_monad. destruct sv as [srv tr].
  cbn [obj trace]. by destruct (legal_moves _).
Qed.

Lemma count_plays_app (a b : list Event) :
  count_plays (a ++ b) = (count_plays a + count_plays b)%nat.
Proof. unfold count_plays. by rewrite filter_app, length_app. Qed.

Lemma get_random_move_legal s rnd :
  ∃ r tr,
    get_random_move rnd s
    = (Return r, {| obj := obj s; trace := trace s ++ tr |})
    ∧ count_plays tr = 0
    ∧ match r with
      | Some m => m ∈ legal_moves (position (board (obj s)))
      | None => legal_moves (position (board (obj s))) = []
      end.
Proof.
  rewrite get_random_move_run.
  destruct (legal_moves _) as [|m0 l] eqn:Hl.
  - exists None, []. rewrite app_nil_r. by destruct s.
  - destruct (pick_is_legal (m0 :: l) rnd) as (m & Hm & Hin); [done|].
    cbv zeta. exists (Some m), [EvRandom (length (m0 :: l))].
    by rewrite Hm.
Qed.

Lemma web_get_random_move_legal sv b rnd :
  ∃ r tr,
    Web.get_random_move b rnd sv
    = (Return r, {| obj := obj sv; trace := trace sv ++ tr |})
    ∧ count_plays tr = 0
    ∧ match r with
      | Some m => m ∈ legal_moves (position b)
      | None => legal_moves (position b) = []
      end.
Proof.
  rewrite web_get_random_move_run.
  destruct (legal_moves _) as [|m0 l] eqn:Hl.
  - exists None, []. rewrite app_nil_r. by destruct sv.
  - destruct (pick_is_legal (m0 :: l) rnd) as (m & Hm & Hin); [done|].
    cbv zeta. exists (Some m), [EvRandom (length (m0 :: l))].
    by rewrite Hm.
Qed.

(** X1. Both random fallbacks ([ChessGame.get_random_move] and
    [ChessGameManager.get_random_move]) return normally, leave the game or
    the server as it is, send nothing to the engine, and answer with a
    legal move of the position, or with [None] exactly when the position
    has no legal move. *)
Theorem random_move_is_legal :
  (∀ s rnd, ∃ r tr,
      get_random_move rnd s
      = (Return r, {| obj := obj s; trace := trace s ++ tr |})
      ∧ count_plays tr = 0
      ∧ match r with
        | Some m => m ∈ legal_moves (position (board (obj s)))
        | None => legal_moves (position (board (obj s))) = []
        end)
  ∧ (∀ sv b rnd, ∃ r tr,
      Web.get_random_move b rnd sv
      = (Return r, {| obj := obj sv; trace := trace sv ++ tr |})
      ∧ count_plays tr = 0
      ∧ match r with
        | Some m => m ∈ legal_moves (position b)
        | None => legal_moves (position b) = []
        end).
Proof.
  split.
  - intros s rnd. apply get_random_move_legal.
  - intros sv b rnd. apply web_get_random_move_legal.
Qed.

(** After one more event [e], the random fallback of the manager. *)
Lemma web_random_after sv b rnd e :
  ∃ r tr,
    Web.get_random_move b rnd {| obj := obj sv; trace := trace sv ++ [e] |}
    = (Return r, {| obj := obj sv; trace := trace sv ++ e :: tr |})
    ∧ count_plays (e :: tr) = count_plays [e]
    ∧ (r = None → legal_moves (position b) = []).
Proof.
  destruct (web_get_random_move_legal
              {| obj := obj sv; trace := trace sv ++ [e] |} b rnd)
    as (r & tr & Hrun & Hc & Hr).
  exists r, tr. rewrite Hrun. cbn [obj trace]. rewrite <- app_assoc.
  split; [done|]. split.
  - change (e :: tr) with ([e] ++ tr). rewrite count_plays_app. lia.
  - by intros ->.
Qed.

(** X2. The three engine services of the web manager never raise and
    never change the server state, whatever the engine answers or raises.
    [get_engine_move] and [get_best_move] send at most one request to the
    engine (none without an engine) and answer [None] only when the
    position has no legal move; [analyze_position] answers the neutral
    score 0 when there is no engine or when the engine raises. *)
Theorem manager_services_never_raise :
  (∀ sv b d reply rnd, ∃ r tr,
      Web.get_engine_move b d reply rnd sv
      = (Return r, {| obj := obj sv; trace := trace sv ++ tr |})
      ∧ (count_plays tr ≤ 1)%nat
      ∧ (Web.manager_engine (obj sv) = None → count_plays tr = 0)
      ∧ (r = None → legal_moves (position b) = []))
  ∧ (∀ sv b reply rnd, ∃ r explanation tr,
      Web.get_best_move b reply rnd sv
      = (Return (r, explanation), {| obj := obj sv; trace := trace sv ++ tr |})
      ∧ (count_plays tr ≤ 1)%nat
      ∧ (Web.manager_engine (obj sv) = None → count_plays tr = 0)
      ∧ (r = None → legal_moves (position b) = []))
  ∧ (∀ sv b reply, ∃ r tr,
      Web.analyze_position b reply sv
      = (Return r, {| obj := obj sv; trace := trace sv ++ tr |})
      ∧ count_plays tr = 0
      ∧ (Web.manager_engine (obj sv) = None ∨ (∃ e, reply = AnalyseRaises e) →
         r = {| score := Some 0%Z; mate := None |})).
Proof.
  split; [|split].
  - intros sv b d reply rnd.
    unfold Web.get_engine_move. unfold_monad. cbn [obj trace].
    destruct (Web.manager_engine (obj sv)) as [e|] eqn:He.
    + assert (Hfallback : ∃ r tr,
        Web.get_random_move b rnd
          {| obj := obj sv; trace := trace sv ++ [EvPlay (fen (position b))] |}
        = (Return r, {| obj := obj sv; trace := trace sv ++ tr |})
        ∧ (count_plays tr ≤ 1)%nat
        ∧ (Some e = None → count_plays tr = 0)
        ∧ (r = None → legal_moves (position b) = [])).
      { destruct (web_random_after sv b rnd (EvPlay (fen (position b))))
          as (r & tr & Hrun & Hc & Hr).
        exists r, (EvPlay (fen (position b)) :: tr).
        split; [done|]. split; [rewrite Hc; by vm_compute|]. done. }
      destruct reply as [[m|]| |ex]; cbn [obj trace].
      * destruct (move_truthy m).
        -- exists (Some m), [EvPlay (fen (position b))].
           split; [done|]. split; [by vm_compute|]. done.
        -- destruct Hfallback as (r & tr & -> & ?). eauto.
      * destruct Hfallback as (r & tr & -> & ?). eauto.
      * destruct Hfallback as (r & tr & -> & ?). eauto.
      * destruct Hfallback as (r & tr & -> & ?). eauto.
    + destruct (web_get_random_move_legal sv b rnd) as (r & tr & -> & Hc & Hr).
      exists r, tr. split; [done|]. split; [lia|]. split; [done|].
      by intros ->.
  - intros sv b reply rnd.
    unfold Web.get_best_move. unfold_monad. cbn [obj trace].
    destruct (Web.manager_engine (obj sv)) as [e|] eqn:He.
    + assert (Hfallback : ∃ r explanation tr,
        match Web.get_random_move b rnd
                {| obj := obj sv;
                   trace := trace sv ++ [EvPlay (fen (position b))] |} with
        | (Return a, s') => (Return (a, "Engine error"), s')
        | (Raise ex, s') => (Raise ex, s')
        end
        = (Return (r, explanation),
           {| obj := obj sv; trace := trace sv ++ tr |})
        ∧ (count_plays tr ≤ 1)%nat
        ∧ (Some e = None → count_plays tr = 0)
        ∧ (r = None → legal_moves (position b) = [])).
      { destruct (web_random_after sv b rnd (EvPlay (fen (position b))))
          as (r & tr & -> & Hc & Hr).
        exists r, "Engine error", (EvPlay (fen (position b)) :: tr).
        split; [done|]. split; [rewrite Hc; by vm_compute|]. done. }
      destruct reply as [[m|]| |ex]; cbn [obj trace]; [|done..].
      exists (Some m), (Web.explain_move b m), [EvPlay (fen (position b))].
      split; [done|]. split; [by vm_compute|]. done.
    + destruct (web_get_random_move_legal sv b rnd) as (r & tr & -> & Hc & Hr).
      exists r, "No engine available", tr.
      split; [done|]. split; [lia|]. split; [done|]. by intros ->.
  - intros sv b reply.
    unfold Web.analyze_position. unfold_monad. cbn [obj trace].
    destruct (Web.manager_engine (obj sv)) as [e|] eqn:He.
    + destruct reply as [[[cp|n]|]|ex]; cbn [obj trace];
        eexists _, [EvAnalyse (fen (position b))];
        (split; [done|]); (split; [done|]).
      all: intros [?|[? ?]]; done.
    + eexists _, []. rewrite app_nil_r. split; [by destruct sv|]. done.
Qed.

(** X3. [ChessGame.get_engine_move] only hands out legal moves: if the
    move cached for the current position (if any) is legal there, then
    whatever the engine answers, a move the call returns is a legal move of
    the current position; and the board and the history are never
    changed. *)
Theorem get_engine_move_returns_legal_move s reply rnd :
  (∀ m, _move_cache (obj s) !! fen (position (board (obj s))) = Some m →
        m ∈ legal_moves (position (board (obj s)))) →
  (∀ m, (get_engine_move reply rnd s).1 = Return (Some m) →
        m ∈ legal_moves (position (board (obj s))))
  ∧ board (obj (get_engine_move reply rnd s).2) = board (obj s)
  ∧ move_history (obj (get_engine_move reply rnd s).2) = move_history (obj s).
Proof.
  intros Hcache.
  assert (Hrandom : ∀ tr,
    let run := get_random_move rnd {| obj := obj s; trace := tr |} in
    (∀ m, run.1 = Return (Some m) → m ∈ legal_moves (position (board (obj s))))
    ∧ board (obj run.2) = board (obj s)
    ∧ move_history (obj run.2) = move_history (obj s)).
  { intros tr.
    destruct (get_random_move_legal {| obj := obj s; trace := tr |} rnd)
      as (r & tr' & Hrun & _ & Hr).
    cbv zeta. rewrite Hrun. cbn [fst snd obj]. split; [|done].
    intros m [= ->]. exact Hr. }
  unfold get_engine_move. unfold_monad. cbn [obj trace].
  destruct (is_game_over _); [done|]. cbn [obj trace].
  destruct (_move_cache (obj s) !! _) as [c|] eqn:Hc.
  { cbn [fst snd obj]. split; [|done]. intros m [= <-]. by apply Hcache. }
  destruct (engine (obj s)).
  - destruct reply as [[m0|]| |ex]; cbn [obj trace].
    + case_decide as Hlegal.
      * cbn [fst snd obj]. split; [|done]. by intros m [= <-].
      * apply Hrandom.
    + apply Hrandom.
    + apply Hrandom.
    + destruct ex; first [apply Hrandom | done].
  - destruct (get_random_move_legal
                {| obj := obj s;
                   trace := trace s
                            ++ [EvCacheLookup (fen (position (board (obj s))))] |}
                rnd) as (r & tr' & Hrun & _ & Hr).
    cbn [obj trace] in Hrun. rewrite Hrun. cbn [fst snd obj].
    split; [|done]. intros m [= ->]. exact Hr.
Qed.

(** X4. Of the exceptions of the engine, [ChessGame.get_engine_move]
    recovers [EngineTerminatedError] (and its own [StockfishError]) with
    the random fallback; any other exception, for example [EngineError],
    leaves the call as it is raised, with the game unchanged. *)
Theorem get_engine_move_error_handling s rnd e :
  is_game_over (board (obj s)) = false →
  _move_cache (obj s) !! fen (position (board (obj s))) = None →
  is_Some (engine (obj s)) →
  let key := fen (position (board (obj s))) in
  let asked := {| obj := obj s;
                  trace := trace s ++ [EvCacheLookup key; EvPlay key] |} in
  (get_engine_move (PlayRaises EngineTerminatedError) rnd s
   = get_random_move rnd asked)
  ∧ (e ≠ EngineTerminatedError → (∀ msg, e ≠ StockfishError msg) →
     get_engine_move (PlayRaises e) rnd s = (Raise e, asked)).
Proof.
  intros Hover Hmiss [eng Heng]. cbv zeta.
  unfold get_engine_move. unfold_monad. cbn [obj trace].
  rewrite Hover. cbn [obj trace]. rewrite Hmiss, Heng.
  cbn [obj trace]. rewrite <- !app_assoc. cbn [app].
  split; [done|].
  intros H1 H2. destruct e; try done. by destruct (H2 msg).
Qed.

(** X5. [ChessGame.make_move] followed by [ChessGame.undo_move] gives the
    game back: a legal move whose notation the rules library produces is
    applied with answer [True], and undoing it answers [True] and restores
    the board, the history and everything else, except that [last_move]
    still holds the move that was undone. *)
Theorem make_move_then_undo_move s move san_move :
  move ∈ legal_moves (position (board (obj s))) →
  san (position (board (obj s))) move = Some san_move →
  (make_move move s).1 = Return true
  ∧ undo_move (make_move move s).2
    = (Return true,
       {| obj := set_played (obj s) (board (obj s)) (Some move)
                   (move_history (obj s));
          trace := trace s |}).
Proof.
  intros Hlegal Hsan.
  unfold make_move. unfold_monad. cbn [obj trace].
  rewrite decide_True by done. rewrite Hsan. cbn [fst snd obj trace].
  split; [done|].
  unfold undo_move. unfold_monad. cbn [obj trace board set_played].
  rewrite decide_False.
  - rewrite pop_push. cbn [obj trace board set_played move_history last_move].
    destruct (move_history (obj s) ++ [san_move]) eqn:Happ.
    + by destruct (move_history (obj s)).
    + rewrite <- Happ, list_pop_snoc. done.
  - intros Hnil. apply (f_equal length) in Hnil.
    rewrite move_stack_push in Hnil. done.
Qed.

End engine_calls.

(** ** Further properties: the sessions of the web server *)

Section web_sessions.
Context {Position : Type} `{!RulesEngine Position}.
Implicit Types (sv : St (@Web.Server Position)) (game : @Web.Game Position).

Lemma all_wf_insert (a : gmap string (@Web.Game Position)) gid game :
  Web.all_wf a → Web.session_wf game → Web.all_wf (<[gid := game]> a).
Proof.
  intros Ha Hg gid' g'. rewrite lookup_insert. case_decide.
  - by intros [= <-].
  - apply Ha.
Qed.

Lemma wf_keeps_ret {A} (a : A) : Web.keeps_wf (Position:=Position) (mret a).
Proof. by intros sv. Qed.

Lemma wf_keeps_raise {A} e : Web.keeps_wf (Position:=Position) (A:=A) (raise e).
Proof. by intros sv. Qed.

Lemma wf_keeps_get : Web.keeps_wf (Position:=Position) get.
Proof. by intros sv. Qed.

Lemma wf_keeps_get_game gid :
  Web.keeps_wf (Position:=Position) (Web.get_game gid).
Proof.
  intros sv. unfold Web.get_game. unfold_monad. cbn [obj].
  by destruct (_ !! gid).
Qed.

Lemma wf_keeps_bind {A B} (m : M (@Web.Server Position) A)
    (k : A → M (@Web.Server Position) B) :
  Web.keeps_wf m → (∀ a, Web.keeps_wf (k a)) → Web.keeps_wf (m ≫= k).
Proof.
  intros Hm Hk sv Hsv. unfold mbind, M_bind.
  specialize (Hm sv Hsv). destruct (m sv) as [[a|e] sv1]; [|done].
  by apply Hk.
Qed.

Lemma wf_keeps_of_returns {A} (m : M (@Web.Server Position) A) :
  (∀ sv, ∃ r tr, m sv = (Return r, {| obj := obj sv; trace := tr |})) →
  Web.keeps_wf m.
Proof. intros Hm sv Hsv. by destruct (Hm sv) as (r & tr & ->). Qed.

Lemma wf_keeps_update gid (f : @Web.Game Position → Web.Game) :
  (∀ g, Web.session_wf g → Web.session_wf (f g)) →
  Web.keeps_wf (Web.update_game gid f).
Proof.
  intros Hf sv Hsv. unfold Web.update_game. unfold_monad. cbn [obj].
  destruct (Web.active_games (obj sv) !! gid) as [g|] eqn:E; [|done].
  cbn [snd obj Web.set_active_games Web.active_games].
  apply all_wf_insert; [done|]. apply Hf. by eapply Hsv.
Qed.

(** Two updates of one session in a row, of which only the second
    restores the condition. *)
Lemma wf_keeps_update_twice {A} gid (f g : @Web.Game Position → Web.Game)
    (k : M (@Web.Server Position) A) :
  (∀ x, Web.session_wf x → Web.session_wf (g (f x))) →
  Web.keeps_wf k →
  Web.keeps_wf (Web.update_game gid f ≫= λ _, Web.update_game gid g ≫= λ _, k).
Proof.
  intros Hfg Hk sv Hsv. unfold mbind, M_bind.
  destruct (Web.active_games (obj sv) !! gid) as [x|] eqn:E.
  - erewrite update_game_run by done.
    erewrite update_game_run by (cbn; apply lookup_insert_eq).
    cbn [obj trace Web.set_active_games Web.active_games Web.manager_engine].
    rewrite insert_insert_eq. apply Hk.
    cbn [obj Web.set_active_games Web.active_games].
    apply all_wf_insert; [done|]. apply Hfg. by eapply Hsv.
  - unfold Web.update_game at 1. unfold_monad. cbn [obj]. by rewrite E.
Qed.

Lemma wf_push_append (x : @Web.Game Position) m san_move :
  Web.session_wf x →
  Web.session_wf
    (Web.set_move_history (Web.set_board x (push (Web.board x) m))
       (Web.move_history (Web.set_board x (push (Web.board x) m)) ++ [san_move])).
Proof.
  unfold Web.session_wf, Web.set_move_history, Web.set_board.
  cbn [Web.move_history Web.board]. intros Hx.
  rewrite length_app, move_stack_push. cbn [length]. lia.
Qed.

Lemma wf_keeps_undo_last gid :
  Web.keeps_wf (Position:=Position) (Web.undo_last gid).
Proof.
  intros sv Hsv.
  destruct (Web.active_games (obj sv) !! gid) as [x|] eqn:E.
  - rewrite (undo_last_run _ _ _ E).
    cbn [snd obj Web.set_active_games Web.active_games].
    apply all_wf_insert; [done|]. apply undo_game_wf. by eapply Hsv.
  - unfold Web.undo_last, Web.get_game. unfold_monad. cbn [obj].
    by rewrite E.
Qed.

Ltac wf_step :=
  first
    [ apply wf_keeps_ret | apply wf_keeps_raise | apply wf_keeps_get
    | apply wf_keeps_get_game | apply wf_keeps_undo_last
    | apply wf_keeps_update_twice; [intros; by apply wf_push_append|]
    | apply wf_keeps_update; by intros []
    | apply wf_keeps_of_returns; intros;
      first [ apply web_get_engine_move_returns
            | apply web_analyze_position_returns ]
    | apply wf_keeps_bind; [|intros]
    | match goal with
      | |- Web.keeps_wf (match ?x with _ => _ end) => destruct x
      end ].

(** X6. One history entry per move played is an invariant of the routes:
    if it holds of every registered session, it still does after a move,
    hint, undo, difficulty or analysis request, whatever the request and
    however the call ends (answer, error answer or exception). *)
Theorem routes_keep_history_in_step :
  (∀ data reply rnd analyse_reply,
      Web.keeps_wf (Position:=Position)
        (Web.make_move data reply rnd analyse_reply))
  ∧ (∀ game_id reply rnd,
      Web.keeps_wf (Position:=Position) (Web.get_hint game_id reply rnd))
  ∧ (∀ game_id, Web.keeps_wf (Position:=Position) (Web.undo_move game_id))
  ∧ (∀ game_id level,
      Web.keeps_wf (Position:=Position) (Web.set_difficulty game_id level))
  ∧ (∀ game_id reply,
      Web.keeps_wf (Position:=Position)
        (Web.analyze_position_route game_id reply)).
Proof.
  split; [|split; [|split; [|split]]].
  - intros. unfold Web.make_move, Web.parse_square_arg. repeat wf_step.
  - intros. unfold Web.get_hint.
    assert (Hbest : ∀ b, Web.keeps_wf (Web.get_best_move b reply rnd)).
    { intros b. apply wf_keeps_of_returns. intros sv.
      unfold Web.get_best_move. unfold_monad. cbn [obj trace].
      destruct (Web.manager_engine (obj sv)).
      - destruct reply as [[m|]| |ex]; cbn [obj trace]; [by eauto|..];
          by edestruct web_get_random_move_returns as (r & tr & ->); eauto.
      - by edestruct web_get_random_move_returns as (r & tr & ->); eauto. }
    repeat first [apply Hbest | wf_step].
  - intros. unfold Web.undo_move. repeat wf_step.
  - intros. unfold Web.set_difficulty. repeat wf_step.
  - intros. unfold Web.analyze_position_route. repeat wf_step.
Qed.

End web_sessions.

(** ** Further properties: requests and their answers *)

Section web_requests.
Context {Position : Type} `{!RulesEngine Position}.
Implicit Types (sv : St (@Web.Server Position)) (game : @Web.Game Position).

(** The requests no session answers to: no identifier, the empty one, or
    one that is not registered. *)
Lemma find_game_None (srv : @Web.Server Position) o :
  Web.find_game srv o = None ↔
  o = None ∨ o = Some "" ∨ ∃ g, o = Some g ∧ Web.active_games srv !! g = None.
Proof.
  unfold Web.find_game. destruct o as [g|]; [|by split; [left|]].
  case_decide as Hg.
  - subst g. split; [by right; left|done].
  - destruct (Web.active_games srv !! g) eqn:E; cbn.
    + split; [done|]. intros [?|[?|(g' & [= <-] & ?)]]; congruence.
    + split; [|done]. intros _. right. right. by exists g.
Qed.

(** X7. A request that names no game, the empty identifier or an
    identifier that is not registered is answered by every route with the
    error [Invalid game ID]; nothing is asked of the engine and the server
    state is unchanged. *)
Theorem unknown_game_is_rejected sv o :
  o = None ∨ o = Some "" ∨ (∃ g, o = Some g ∧ Web.active_games (obj sv) !! g = None) →
  (∀ from_ to_ reply rnd analyse_reply,
      Web.make_move {| Web.mv_gameId := o; Web.mv_from := from_; Web.mv_to := to_ |}
        reply rnd analyse_reply sv
      = (Return (Err400 "Invalid game ID"), sv))
  ∧ (∀ reply rnd,
      Web.get_hint o reply rnd sv = (Return (Err400 "Invalid game ID"), sv))
  ∧ Web.undo_move o sv = (Return (Err400 "Invalid game ID"), sv)
  ∧ (∀ level,
      Web.set_difficulty o level sv = (Return (Err400 "Invalid game ID"), sv))
  ∧ (∀ reply,
      Web.analyze_position_route o reply sv
      = (Return (Err400 "Invalid game ID"), sv)).
Proof.
  intros Ho. apply find_game_None in Ho.
  unfold Web.make_move, Web.get_hint, Web.undo_move, Web.set_difficulty,
    Web.analyze_position_route.
  unfold_monad. cbn [Web.mv_gameId]. rewrite Ho. done.
Qed.

Lemma web_analyze_position_quiet sv b reply :
  ∃ r tr,
    Web.analyze_position b reply sv
    = (Return r, {| obj := obj sv; trace := trace sv ++ tr |})
    ∧ count_plays tr = 0.
Proof.
  unfold Web.analyze_position. unfold_monad. cbn [obj trace].
  destruct (Web.manager_engine (obj sv)) as [e|].
  - destruct reply as [[[cp|n]|]|ex]; cbn [obj trace];
      by eexists _, [EvAnalyse (fen (position b))].
  - eexists _, []. rewrite app_nil_r. by destruct sv.
Qed.

(** The session after a move and its notation were recorded. *)
Lemma moved_game_fields game m san_move :
  let game1 :=
    Web.set_move_history (Web.set_board game (push (Web.board game) m))
      (Web.move_history game ++ [san_move]) in
  Web.mode game1 = Web.mode game
  ∧ Web.board game1 = push (Web.board game) m
  ∧ Web.move_history game1 = Web.move_history game ++ [san_move]
  ∧ Web.undo_game game1 = game.
Proof.
  cbv zeta. split; [done|]. split; [done|]. split; [done|].
  unfold Web.undo_game, Web.set_move_history, Web.set_board.
  cbn [Web.board Web.move_history Web.mode Web.human_is_white Web.difficulty
       Web.show_hints Web.last_engine_hint].
  rewrite pop_push.
  destruct (Web.move_history game ++ [san_move]) eqn:Happ.
  - by destruct (Web.move_history game).
  - rewrite <- Happ, list_pop_snoc. by destruct game.
Qed.

(** What the move route does with a legal move in a mode other than
    Play. *)
Lemma make_move_without_reply_run sv data reply rnd analyse_reply
    gid game from_idx to_idx san_move :
  Web.find_game (obj sv) (Web.mv_gameId data) = Some (gid, game) →
  Web.mv_from data ≫= parse_square = Some from_idx →
  Web.mv_to data ≫= parse_square = Some to_idx →
  let move := Web.requested_move (Web.board game) from_idx to_idx in
  move ∈ legal_moves (position (Web.board game)) →
  san (position (Web.board game)) move = Some san_move →
  Web.mode game ≠ "Play" →
  ∃ ev tr,
    Web.make_move data reply rnd analyse_reply sv
    = (Return (Ok200
         {| Web.mr_state := Web.view (push (Web.board game) move)
                              (Web.move_history game ++ [san_move]);
            Web.lastMove := (default "" (Web.mv_from data),
                             default "" (Web.mv_to data), san_move);
            Web.engineMove := None;
            Web.evaluation := ev |}),
       {| obj := Web.set_active_games (obj sv)
                   (<[gid := Web.set_move_history
                               (Web.set_board game (push (Web.board game) move))
                               (Web.move_history game ++ [san_move])]>
                      (Web.active_games (obj sv)));
          trace := trace sv ++ tr |})
    ∧ count_plays tr = 0.
Proof.
  intros Hfind Hf Ht move Hlegal Hsan Hmode.
  destruct (find_game_Some _ _ _ _ Hfind) as (Hid & Hne & Hlook).
  set (game1 := Web.set_move_history
                  (Web.set_board game (push (Web.board game) move))
                  (Web.move_history game ++ [san_move])).
  set (sv1 := {| obj := Web.set_active_games (obj sv)
                          (<[gid := game1]> (Web.active_games (obj sv)));
                 trace := trace sv |}).
  assert (Hlook1 : Web.active_games (obj sv1) !! gid = Some game1)
    by apply lookup_insert_eq.
  destruct (web_analyze_position_quiet sv1 (Web.board game1) analyse_reply)
    as (ev & tr & Hev & Hquiet).
  exists ev, tr. split; [|exact Hquiet].
  unfold Web.make_move, Web.parse_square_arg.
  unfold mbind at 1. unfold M_bind, get. rewrite Hfind.
  unfold mbind at 1. unfold M_bind. rewrite Hf. unfold mret at 1, M_ret.
  unfold mbind at 1. unfold M_bind. rewrite Ht. unfold mret at 1, M_ret.
  fold move. rewrite decide_True by done. rewrite Hsan.
  unfold mbind at 1. unfold M_bind.
  rewrite (update_game_run sv gid game _ Hlook).
  unfold mbind at 1. unfold M_bind.
  erewrite update_game_run by (cbn; apply lookup_insert_eq).
  cbn [obj trace Web.set_active_games Web.active_games Web.manager_engine].
  rewrite insert_insert_eq.
  unfold mbind at 1. unfold M_bind.
  lazymatch goal with
  | |- context [Web.get_game gid ?st] => change st with sv1
  end.
  rewrite (get_game_run sv1 gid game1 Hlook1).
  unfold mbind at 1. unfold M_bind.
  replace (bool_decide (Web.mode game1 = "Play")) with false
    by (symmetry; by apply bool_decide_eq_false_2).
  cbn [andb]. unfold mret at 1, M_ret.
  unfold mbind at 1. unfold M_bind. rewrite (get_game_run sv1 gid game1 Hlook1).
  unfold mbind at 1. unfold M_bind. rewrite Hev.
  unfold mret, M_ret. done.
Qed.

(** X8. In a mode other than Play the move route applies a legal move
    and nothing else: the answer shows the position after the move and the
    history extended by its notation, carries no engine move, the session
    holds exactly that board and history, and no move was asked of the
    engine. *)
Theorem practice_move_gets_no_reply sv data reply rnd analyse_reply
    gid game from_idx to_idx san_move :
  Web.find_game (obj sv) (Web.mv_gameId data) = Some (gid, game) →
  Web.mv_from data ≫= parse_square = Some from_idx →
  Web.mv_to data ≫= parse_square = Some to_idx →
  let move := Web.requested_move (Web.board game) from_idx to_idx in
  move ∈ legal_moves (position (Web.board game)) →
  san (position (Web.board game)) move = Some san_move →
  Web.mode game ≠ "Play" →
  ∃ ev tr,
    Web.make_move data reply rnd analyse_reply sv
    = (Return (Ok200
         {| Web.mr_state := Web.view (push (Web.board game) move)
                              (Web.move_history game ++ [san_move]);
            Web.lastMove := (default "" (Web.mv_from data),
                             default "" (Web.mv_to data), san_move);
            Web.engineMove := None;
            Web.evaluation := ev |}),
       {| obj := Web.set_active_games (obj sv)
                   (<[gid := Web.set_move_history
                               (Web.set_board game (push (Web.board game) move))
                               (Web.move_history game ++ [san_move])]>
                      (Web.active_games (obj sv)));
          trace := trace sv ++ tr |})
    ∧ count_plays tr = 0.
Proof. apply make_move_without_reply_run. Qed.

(** X9. In a mode other than Play, a move request followed by an undo
    request gives the server back as it was: the undo answers with the
    position and the history from before the move, and every session,
    the one played on included, is what it was before the move. *)
Theorem practice_move_then_undo sv data reply rnd analyse_reply
    gid game from_idx to_idx san_move :
  Web.find_game (obj sv) (Web.mv_gameId data) = Some (gid, game) →
  Web.mv_from data ≫= parse_square = Some from_idx →
  Web.mv_to data ≫= parse_square = Some to_idx →
  Web.requested_move (Web.board game) from_idx to_idx
    ∈ legal_moves (position (Web.board game)) →
  san (position (Web.board game))
    (Web.requested_move (Web.board game) from_idx to_idx) = Some san_move →
  Web.mode game ≠ "Play" →
  let sv1 := (Web.make_move data reply rnd analyse_reply sv).2 in
  Web.undo_move (Some gid) sv1
  = (Return (Ok200 (Web.view (Web.board game) (Web.move_history game))),
     {| obj := obj sv; trace := trace sv1 |}).
Proof.
  intros Hfind Hf Ht Hlegal Hsan Hmode.
  destruct (make_move_without_reply_run sv data reply rnd analyse_reply
              gid game from_idx to_idx san_move Hfind Hf Ht Hlegal Hsan Hmode)
    as (ev & tr & Hrun & _).
  destruct (find_game_Some _ _ _ _ Hfind) as (Hid & Hne & Hlook).
  cbv zeta. rewrite Hrun. cbn [snd].
  set (move := Web.requested_move (Web.board game) from_idx to_idx) in *.
  set (game1 := Web.set_move_history
                  (Web.set_board game (push (Web.board game) move))
                  (Web.move_history game ++ [san_move])).
  destruct (moved_game_fields game move san_move)
    as (Hmode1 & _ & _ & Hundo). fold game1 in Hmode1, Hundo.
  set (sv1 := {| obj := Web.set_active_games (obj sv)
                          (<[gid := game1]> (Web.active_games (obj sv)));
                 trace := trace sv ++ tr |}).
  assert (Hlook1 : Web.active_games (obj sv1) !! gid = Some game1)
    by apply lookup_insert_eq.
  unfold Web.undo_move. unfold mbind at 1. unfold M_bind, get.
  unfold Web.find_game. rewrite decide_False by done. rewrite Hlook1.
  cbn [fmap option_fmap option_map].
  unfold mbind at 1. unfold M_bind.
  rewrite decide_False by (by rewrite Hmode1).
  rewrite (undo_last_run sv1 gid game1 Hlook1). rewrite Hundo.
  subst sv1.
  cbn [obj trace Web.set_active_games Web.active_games Web.manager_engine].
  rewrite insert_insert_eq, (insert_id _ _ _ Hlook).
  unfold mbind at 1. unfold M_bind.
  erewrite get_game_run by (cbn; exact Hlook).
  unfold mret, M_ret. by destruct sv as [[a e] t0].
Qed.

Lemma web_get_best_move_quiet sv b reply rnd :
  ∃ r explanation tr,
    Web.get_best_move b reply rnd sv
    = (Return (r, explanation), {| obj := obj sv; trace := trace sv ++ tr |}).
Proof.
  unfold Web.get_best_move. unfold_monad. cbn [obj trace].
  destruct (Web.manager_engine (obj sv)) as [e|].
  - assert (Hfallback : ∃ r explanation tr,
      match Web.get_random_move b rnd
              {| obj := obj sv;
                 trace := trace sv ++ [EvPlay (fen (position b))] |} with
      | (Return a, s') => (Return (a, "Engine error"), s')
      | (Raise ex, s') => (Raise ex, s')
      end
      = (Return (r, explanation),
         {| obj := obj sv; trace := trace sv ++ tr |})).
    { destruct (web_random_after sv b rnd (EvPlay (fen (position b))))
        as (r & tr & -> & _). by eexists _, _, _. }
    destruct reply as [[m|]| |ex]; cbn [obj trace]; [|done..].
    by eexists _, _, [EvPlay (fen (position b))].
  - destruct (web_get_random_move_legal sv b rnd) as (r & tr & -> & _).
    by eexists _, _, _.
Qed.

(** X10. A hint request for a registered session never raises and has
    two outcomes only: either it answers with a hint, and then the session
    differs from what it was in its stored hint alone, which is the hint
    answered, every other session being untouched; or it answers with the
    error [Could not generate hint] and the server state is unchanged. *)
Theorem get_hint_stores_the_hint sv o gid game reply rnd :
  Web.find_game (obj sv) o = Some (gid, game) →
  ∃ tr,
    (∃ hint,
        Web.get_hint o reply rnd sv
        = (Return (Ok200 hint),
           {| obj := Web.set_active_games (obj sv)
                       (<[gid := Web.set_last_engine_hint game (Some hint)]>
                          (Web.active_games (obj sv)));
              trace := trace sv ++ tr |}))
    ∨ Web.get_hint o reply rnd sv
      = (Return (Err400 "Could not generate hint"),
         {| obj := obj sv; trace := trace sv ++ tr |}).
Proof.
  intros Hfind.
  destruct (find_game_Some _ _ _ _ Hfind) as (Hid & Hne & Hlook).
  destruct (web_get_best_move_quiet sv (Web.board game) reply rnd)
    as (r & explanation & tr & Hbest).
  exists tr. unfold Web.get_hint.
  unfold mbind, M_bind, get. rewrite Hfind, Hbest.
  destruct r as [bm|]; [|by right].
  destruct (move_truthy bm); [|by right].
  left. eexists.
  erewrite update_game_run by (cbn; exact Hlook). done.
Qed.

Lemma web_get_engine_move_quiet sv b d reply rnd :
  ∃ r tr,
    Web.get_engine_move b d reply rnd sv
    = (Return r, {| obj := obj sv; trace := trace sv ++ tr |})
    ∧ (count_plays tr ≤ 1)%nat.
Proof.
  unfold Web.get_engine_move. unfold_monad. cbn [obj trace].
  destruct (Web.manager_engine (obj sv)) as [e|].
  - assert (Hfallback : ∃ r tr,
      Web.get_random_move b rnd
        {| obj := obj sv; trace := trace sv ++ [EvPlay (fen (position b))] |}
      = (Return r, {| obj := obj sv; trace := trace sv ++ tr |})
      ∧ (count_plays tr ≤ 1)%nat).
    { destruct (web_random_after sv b rnd (EvPlay (fen (position b))))
        as (r & tr & Hrun & Hc & _).
      exists r, (EvPlay (fen (position b)) :: tr).
      split; [done|]. rewrite Hc. by vm_compute. }
    destruct Hfallback as (r0 & tr0 & Hr0 & Hc0).
    destruct reply as [[m|]| |ex]; cbn [obj trace];
      [destruct (move_truthy m)|..]; rewrite ?Hr0;
      [|by exists r0, tr0..].
    exists (Some m), [EvPlay (fen (position b))]. split; [done|]. by vm_compute.
  - destruct (web_get_random_move_legal sv b rnd) as (r & tr & -> & Hc & _).
    exists r, tr. split; [done|]. lia.
Qed.

Lemma move_stack_new_board : move_stack (new_board (Position:=Position)) = [].
Proof. done. Qed.

(** X11. Whatever the request and however the call ends, [new_game]
    touches one session only, the one under the identifier made of the
    current second: every session under another identifier is what it was;
    under the new identifier there is afterwards a session with the
    requested mode and colour, difficulty 3, no hint and at most one move,
    whatever was registered there before; and at most one move was asked
    of the engine. *)
Theorem new_game_touches_one_session sv data now reply rnd :
  Web.new_game_outcome sv data now (Web.new_game data now reply rnd sv).2.
Proof.
  unfold Web.new_game. cbv zeta.
  set (game_mode := default "Play" (Web.rq_mode data)).
  set (white := bool_decide (default "white" (Web.rq_color data) = "white")).
  set (gid := pretty now).
  set (g0 := {| Web.board := new_board; Web.mode := game_mode;
                Web.human_is_white := white; Web.difficulty := 3;
                Web.show_hints := true; Web.move_history := [];
                Web.last_engine_hint := None |}).
  set (a := Web.active_games (obj sv)).
  set (sv0 := {| obj := Web.set_active_games (obj sv) (<[gid := g0]> a);
                 trace := trace sv |}).
  assert (Hfinal : ∀ game' tr,
    Web.mode game' = game_mode → Web.human_is_white game' = white →
    Web.difficulty game' = 3%Z → Web.last_engine_hint game' = None →
    (length (Web.move_history game')
     ≤ length (move_stack (Web.board game')) ≤ 1)%nat →
    (count_plays tr ≤ 1)%nat →
    Web.new_game_outcome sv data now
      {| obj := Web.set_active_games (obj sv) (<[gid := game']> a);
         trace := trace sv ++ tr |}).
  { intros game' tr ? ? ? ? ? ?. unfold Web.new_game_outcome.
    cbn [obj trace Web.set_active_games Web.active_games Web.manager_engine].
    split; [intros gid' Hne; by rewrite lookup_insert_ne|].
    split; [exists game'; by rewrite lookup_insert_eq|].
    split; [done|]. rewrite count_plays_app. lia. }
  assert (Hlook0 : ∀ tr, Web.active_games
            (obj {| obj := obj sv0; trace := tr |}) !! gid = Some g0)
    by (intros; apply lookup_insert_eq).
  assert (Hg0 : Web.new_game_outcome sv data now sv0).
  { specialize (Hfinal g0 []). rewrite app_nil_r in Hfinal.
    apply Hfinal; try done; cbn; lia. }
  unfold mbind at 1. unfold M_bind, get.
  unfold mbind at 1. unfold M_bind, put. cbn [obj trace]. fold a sv0.
  unfold mbind at 1. unfold M_bind.
  destruct (negb white && negb (bool_decide (game_mode = "Self-Practice"))).
  - unfold mbind at 1. unfold M_bind.
    destruct (web_get_engine_move_quiet sv0 new_board 3%Z reply rnd)
      as (r & tr & Hrun & Hc).
    rewrite Hrun. cbv beta iota.
    assert (Hstay : Web.new_game_outcome sv data now
              {| obj := obj sv0; trace := trace sv0 ++ tr |}).
    { apply (Hfinal g0 tr); try done; cbn; lia. }
    destruct r as [m|];
      [|unfold mret at 1, M_ret; cbv beta iota; unfold mbind, M_bind;
        erewrite get_game_run by apply Hlook0; exact Hstay].
    destruct (move_truthy m);
      [|unfold mret at 1, M_ret; cbv beta iota; unfold mbind, M_bind;
        erewrite get_game_run by apply Hlook0; exact Hstay].
    unfold mbind at 1. unfold M_bind.
    erewrite update_game_run by apply Hlook0.
    unfold sv0.
    cbn [obj trace Web.set_active_games Web.active_games Web.manager_engine].
    rewrite insert_insert_eq.
    unfold mbind at 1. unfold M_bind.
    erewrite get_game_run by (cbn; apply lookup_insert_eq).
    cbn [Web.board Web.set_board].
    destruct (san (position (push new_board m)) m) as [san_move|].
    + erewrite update_game_run by (cbn; apply lookup_insert_eq).
      cbn [obj trace Web.set_active_games Web.active_games Web.manager_engine].
      rewrite insert_insert_eq.
      unfold mbind, M_bind.
      erewrite get_game_run by (cbn; apply lookup_insert_eq).
      cbn [snd]. apply Hfinal; try done;
        cbn [Web.move_history Web.board Web.set_board Web.set_move_history g0];
        rewrite ?move_stack_push, ?move_stack_new_board; cbn; lia.
    + unfold raise. cbn [snd]. apply Hfinal; try done;
        cbn [Web.move_history Web.board Web.set_board length g0];
        rewrite ?move_stack_push, ?move_stack_new_board; cbn; lia.
  - unfold mret at 1, M_ret. unfold mbind, M_bind.
    erewrite get_game_run by (apply (Hlook0 (trace sv))).
    exact Hg0.
Qed.

Lemma web_random_outcome_run sv b rnd :
  Web.get_random_move b rnd sv
  = (Return (Web.random_outcome b rnd).1,
     {| obj := obj sv; trace := trace sv ++ (Web.random_outcome b rnd).2 |}).
Proof.
  rewrite web_get_random_move_run. unfold Web.random_outcome.
  destruct (legal_moves (position b)); cbn [fst snd]; [|done].
  rewrite app_nil_r. by destruct sv.
Qed.

Lemma web_engine_move_outcome_run sv b d reply rnd :
  Web.get_engine_move b d reply rnd sv
  = (Return (Web.engine_move_outcome (Web.manager_engine (obj sv)) b reply rnd).1,
     {| obj := obj sv;
        trace := trace sv
                 ++ (Web.engine_move_outcome (Web.manager_engine (obj sv))
                       b reply rnd).2 |}).
Proof.
  unfold Web.get_engine_move, Web.engine_move_outcome. unfold_monad.
  cbn [obj trace].
  destruct (Web.manager_engine (obj sv)) as [e|];
    [|apply web_random_outcome_run].
  destruct reply as [[m|]| |ex]; cbn [obj trace];
    [destruct (move_truthy m); [done|]|..];
    rewrite web_random_outcome_run; cbn [obj trace fst snd];
    by rewrite <- app_assoc.
Qed.

Lemma engine_move_outcome_plays e (b : Board Position) reply rnd :
  (count_plays (Web.engine_move_outcome e b reply rnd).2 ≤ 1)%nat.
Proof.
  assert (Hr : count_plays (Web.random_outcome b rnd).2 = 0).
  { unfold Web.random_outcome. by destruct (legal_moves (position b)). }
  unfold Web.engine_move_outcome.
  destruct e; [|lia].
  assert (Hp : count_plays (EvPlay (fen (position b))
                            :: (Web.random_outcome b rnd).2) = 1).
  { change (EvPlay (fen (position b)) :: (Web.random_outcome b rnd).2)
      with ([EvPlay (fen (position b))] ++ (Web.random_outcome b rnd).2).
    rewrite count_plays_app, Hr. done. }
  destruct reply as [[m|]| |ex]; cbn [snd]; [destruct (move_truthy m)|..];
    cbn [snd]; rewrite ?Hp; try lia.
  by vm_compute.
Qed.

(** What the move route does in Play mode when the engine answers the
    human's move. *)
Lemma exchange_run sv data reply rnd analyse_reply
    gid game from_idx to_idx san_move em engine_san :
  Web.find_game (obj sv) (Web.mv_gameId data) = Some (gid, game) →
  Web.mv_from data ≫= parse_square = Some from_idx →
  Web.mv_to data ≫= parse_square = Some to_idx →
  let move := Web.requested_move (Web.board game) from_idx to_idx in
  let b1 := push (Web.board game) move in
  move ∈ legal_moves (position (Web.board game)) →
  san (position (Web.board game)) move = Some san_move →
  Web.mode game = "Play" →
  is_game_over b1 = false →
  Web.human_is_white game && bool_decide (turn (position b1) = WHITE)
  || negb (Web.human_is_white game) && bool_decide (turn (position b1) = BLACK)
  = false →
  (Web.get_engine_move b1 (Web.difficulty game) reply rnd sv).1
  = Return (Some em) →
  move_truthy em = true →
  san (position b1) em = Some engine_san →
  ∃ ev tr,
    Web.make_move data reply rnd analyse_reply sv
    = (Return (Ok200
         {| Web.mr_state := Web.view (push b1 em)
                              ((Web.move_history game ++ [san_move])
                               ++ [engine_san]);
            Web.lastMove := (default "" (Web.mv_from data),
                             default "" (Web.mv_to data), san_move);
            Web.engineMove := Some (square_name (from_square em),
                                    square_name (to_square em), engine_san);
            Web.evaluation := ev |}),
       {| obj := Web.set_active_games (obj sv)
                   (<[gid :=
                        Web.set_move_history
                          (Web.set_board
                             (Web.set_move_history (Web.set_board game b1)
                                (Web.move_history game ++ [san_move]))
                             (push b1 em))
                          ((Web.move_history game ++ [san_move])
                           ++ [engine_san])]>
                      (Web.active_games (obj sv)));
          trace := trace sv ++ tr |})
    ∧ (count_plays tr ≤ 1)%nat.
Proof.
  intros Hfind Hf Ht move b1 Hlegal Hsan Hmode Hover Hturn Hengine Htruthy
    Hsan2.
  destruct (find_game_Some _ _ _ _ Hfind) as (Hid & Hne & Hlook).
  set (game1 := Web.set_move_history (Web.set_board game b1)
                  (Web.move_history game ++ [san_move])).
  set (game2 := Web.set_move_history (Web.set_board game1 (push b1 em))
                  ((Web.move_history game ++ [san_move]) ++ [engine_san])).
  set (a := Web.active_games (obj sv)).
  set (sv1 := {| obj := Web.set_active_games (obj sv) (<[gid := game1]> a);
                 trace := trace sv |}).
  set (out := Web.engine_move_outcome (Web.manager_engine (obj sv)) b1 reply rnd).
  assert (Hout : out.1 = Some em).
  { rewrite web_engine_move_outcome_run in Hengine. cbn [fst] in Hengine.
    by injection Hengine. }
  set (sv2 := {| obj := Web.set_active_games (obj sv) (<[gid := game2]> a);
                 trace := trace sv ++ out.2 |}).
  assert (Hlook1 : ∀ tr, Web.active_games
            (obj {| obj := obj sv1; trace := tr |}) !! gid = Some game1)
    by (intros; apply lookup_insert_eq).
  assert (Hlook2 : Web.active_games (obj sv2) !! gid = Some game2)
    by apply lookup_insert_eq.
  destruct (web_analyze_position_quiet sv2 (Web.board game2) analyse_reply)
    as (ev & tra & Hev & Hquiet).
  exists ev, (out.2 ++ tra). split.
  2:{ rewrite count_plays_app, Hquiet.
      pose proof (engine_move_outcome_plays (Web.manager_engine (obj sv))
                    b1 reply rnd) as Hp. fold out in Hp. lia. }
  unfold Web.make_move, Web.parse_square_arg.
  unfold mbind at 1. unfold M_bind, get. rewrite Hfind.
  unfold mbind at 1. unfold M_bind. rewrite Hf. unfold mret at 1, M_ret.
  unfold mbind at 1. unfold M_bind. rewrite Ht. unfold mret at 1, M_ret.
  fold move. rewrite decide_True by done. rewrite Hsan.
  unfold mbind at 1. unfold M_bind.
  rewrite (update_game_run sv gid game _ Hlook).
  unfold mbind at 1. unfold M_bind.
  erewrite update_game_run by (cbn; apply lookup_insert_eq).
  cbn [obj trace Web.set_active_games Web.active_games Web.manager_engine].
  rewrite insert_insert_eq.
  unfold mbind at 1. unfold M_bind.
  lazymatch goal with
  | |- context [Web.get_game gid ?st] => change st with sv1
  end.
  erewrite get_game_run by apply (Hlook1 (trace sv)).
  unfold mbind at 1. unfold M_bind.
  change (Web.mode game1) with (Web.mode game).
  change (Web.board game1) with b1.
  change (Web.human_is_white game1) with (Web.human_is_white game).
  change (Web.difficulty game1) with (Web.difficulty game).
  rewrite (bool_decide_eq_true_2 _ Hmode), Hover, Hturn. cbn [andb negb].
  unfold mbind at 1. unfold M_bind.
  rewrite web_engine_move_outcome_run.
  change (Web.manager_engine (obj sv1)) with (Web.manager_engine (obj sv)).
  fold out. rewrite Hout, Htruthy, Hsan2.
  unfold mbind at 1. unfold M_bind.
  erewrite update_game_run by (cbn; apply lookup_insert_eq).
  unfold mbind at 1. unfold M_bind.
  erewrite update_game_run by (cbn; apply lookup_insert_eq).
  unfold sv1.
  cbn [obj trace Web.set_active_games Web.active_games Web.manager_engine].
  rewrite !insert_insert_eq.
  unfold mret at 1, M_ret.
  unfold mbind at 1. unfold M_bind.
  lazymatch goal with
  | |- context [Web.get_game gid ?st] => change st with sv2
  end.
  rewrite (get_game_run sv2 gid game2 Hlook2).
  unfold mbind at 1. unfold M_bind. rewrite Hev.
  unfold mret, M_ret. cbn [obj trace]. by rewrite app_assoc.
Qed.

(** X12. In Play mode, when the game is not over after the human's legal
    move, it is the engine's turn and the manager yields a move whose
    notation the rules library produces, the move route answers once for
    both moves: the answer shows the position after the engine's reply,
    the history extended by both notations and the engine's move, the
    session holds that board and history, and at most one request went to
    the engine. *)
Theorem play_move_is_answered sv data reply rnd analyse_reply
    gid game from_idx to_idx san_move em engine_san :
  Web.find_game (obj sv) (Web.mv_gameId data) = Some (gid, game) →
  Web.mv_from data ≫= parse_square = Some from_idx →
  Web.mv_to data ≫= parse_square = Some to_idx →
  let move := Web.requested_move (Web.board game) from_idx to_idx in
  let b1 := push (Web.board game) move in
  move ∈ legal_moves (position (Web.board game)) →
  san (position (Web.board game)) move = Some san_move →
  Web.mode game = "Play" →
  is_game_over b1 = false →
  Web.human_is_white game && bool_decide (turn (position b1) = WHITE)
  || negb (Web.human_is_white game) && bool_decide (turn (position b1) = BLACK)
  = false →
  (Web.get_engine_move b1 (Web.difficulty game) reply rnd sv).1
  = Return (Some em) →
  move_truthy em = true →
  san (position b1) em = Some engine_san →
  ∃ ev tr,
    Web.make_move data reply rnd analyse_reply sv
    = (Return (Ok200
         {| Web.mr_state := Web.view (push b1 em)
                              ((Web.move_history game ++ [san_move])
                               ++ [engine_san]);
            Web.lastMove := (default "" (Web.mv_from data),
                             default "" (Web.mv_to data), san_move);
            Web.engineMove := Some (square_name (from_square em),
                                    square_name (to_square em), engine_san);
            Web.evaluation := ev |}),
       {| obj := Web.set_active_games (obj sv)
                   (<[gid :=
                        Web.set_move_history
                          (Web.set_board
                             (Web.set_move_history (Web.set_board game b1)
                                (Web.move_history game ++ [san_move]))
                             (push b1 em))
                          ((Web.move_history game ++ [san_move])
                           ++ [engine_san])]>
                      (Web.active_games (obj sv)));
          trace := trace sv ++ tr |})
    ∧ (count_plays tr ≤ 1)%nat.
Proof. apply exchange_run. Qed.

(** X13. In Play mode one undo request takes back a whole exchange: after
    a move request the engine answered, the undo answers with the position
    and the history from before the human's move, and every session is
    what it was before that move. *)
Theorem play_exchange_then_undo sv data reply rnd analyse_reply
    gid game from_idx to_idx san_move em engine_san :
  Web.find_game (obj sv) (Web.mv_gameId data) = Some (gid, game) →
  Web.mv_from data ≫= parse_square = Some from_idx →
  Web.mv_to data ≫= parse_square = Some to_idx →
  let move := Web.requested_move (Web.board game) from_idx to_idx in
  let b1 := push (Web.board game) move in
  move ∈ legal_moves (position (Web.board game)) →
  san (position (Web.board game)) move = Some san_move →
  Web.mode game = "Play" →
  is_game_over b1 = false →
  Web.human_is_white game && bool_decide (turn (position b1) = WHITE)
  || negb (Web.human_is_white game) && bool_decide (turn (position b1) = BLACK)
  = false →
  (Web.get_engine_move b1 (Web.difficulty game) reply rnd sv).1
  = Return (Some em) →
  move_truthy em = true →
  san (position b1) em = Some engine_san →
  let sv2 := (Web.make_move data reply rnd analyse_reply sv).2 in
  Web.undo_move (Some gid) sv2
  = (Return (Ok200 (Web.view (Web.board game) (Web.move_history game))),
     {| obj := obj sv; trace := trace sv2 |}).
Proof.
  intros Hfind Hf Ht move b1 Hlegal Hsan Hmode Hover Hturn Hengine Htruthy
    Hsan2.
  destruct (exchange_run sv data reply rnd analyse_reply gid game from_idx
              to_idx san_move em engine_san Hfind Hf Ht Hlegal Hsan Hmode
              Hover Hturn Hengine Htruthy Hsan2)
    as (ev & tr & Hrun & _).
  destruct (find_game_Some _ _ _ _ Hfind) as (Hid & Hne & Hlook).
  cbv zeta. rewrite Hrun. cbn [snd].
  fold move. fold b1.
  set (game1 := Web.set_move_history (Web.set_board game b1)
                  (Web.move_history game ++ [san_move])).
  set (game2 := Web.set_move_history (Web.set_board game1 (push b1 em))
                  ((Web.move_history game ++ [san_move]) ++ [engine_san])).
  destruct (moved_game_fields game move san_move)
    as (Hmode1 & _ & _ & Hundo1).
  fold b1 in Hmode1, Hundo1. fold game1 in Hmode1, Hundo1.
  destruct (moved_game_fields game1 em engine_san)
    as (Hmode2 & _ & _ & Hundo2).
  change (Web.board game1) with b1 in Hmode2, Hundo2.
  change (Web.move_history game1)
    with (Web.move_history game ++ [san_move]) in Hmode2, Hundo2.
  fold game2 in Hmode2, Hundo2.
  set (sv2 := {| obj := Web.set_active_games (obj sv)
                          (<[gid := game2]> (Web.active_games (obj sv)));
                 trace := trace sv ++ tr |}).
  assert (Hlook2 : Web.active_games (obj sv2) !! gid = Some game2)
    by apply lookup_insert_eq.
  unfold Web.undo_move. unfold mbind at 1. unfold M_bind, get.
  unfold Web.find_game. rewrite decide_False by done. rewrite Hlook2.
  cbn [fmap option_fmap option_map].
  unfold mbind at 1. unfold M_bind.
  rewrite decide_True by (by rewrite Hmode2, Hmode1).
  unfold mbind at 1. unfold M_bind.
  rewrite (undo_last_run sv2 gid game2 Hlook2). rewrite Hundo2.
  erewrite undo_last_run by (cbn; apply lookup_insert_eq). rewrite Hundo1.
  subst sv2.
  cbn [obj trace Web.set_active_games Web.active_games Web.manager_engine].
  rewrite !insert_insert_eq, (insert_id _ _ _ Hlook).
  unfold mbind at 1. unfold M_bind.
  erewrite get_game_run by (cbn; exact Hlook).
  unfold mret, M_ret. by destruct sv as [[a e] t0].
Qed.

(** What the move route does with a legal move in Play mode when the game
    is over after it. *)
Lemma make_move_final_run sv data reply rnd analyse_reply
    gid game from_idx to_idx san_move :
  Web.find_game (obj sv) (Web.mv_gameId data) = Some (gid, game) →
  Web.mv_from data ≫= parse_square = Some from_idx →
  Web.mv_to data ≫= parse_square = Some to_idx →
  let move := Web.requested_move (Web.board game) from_idx to_idx in
  move ∈ legal_moves (position (Web.board game)) →
  san (position (Web.board game)) move = Some san_move →
  is_game_over (push (Web.board game) move) = true →
  ∃ ev tr,
    Web.make_move data reply rnd analyse_reply sv
    = (Return (Ok200
         {| Web.mr_state := Web.view (push (Web.board game) move)
                              (Web.move_history game ++ [san_move]);
            Web.lastMove := (default "" (Web.mv_from data),
                             default "" (Web.mv_to data), san_move);
            Web.engineMove := None;
            Web.evaluation := ev |}),
       {| obj := Web.set_active_games (obj sv)
                   (<[gid := Web.set_move_history
                               (Web.set_board game (push (Web.board game) move))
                               (Web.move_history game ++ [san_move])]>
                      (Web.active_games (obj sv)));
          trace := trace sv ++ tr |})
    ∧ count_plays tr = 0.
Proof.
  intros Hfind Hf Ht move Hlegal Hsan Hover.
  destruct (find_game_Some _ _ _ _ Hfind) as (Hid & Hne & Hlook).
  set (game1 := Web.set_move_history
                  (Web.set_board game (push (Web.board game) move))
                  (Web.move_history game ++ [san_move])).
  set (sv1 := {| obj := Web.set_active_games (obj sv)
                          (<[gid := game1]> (Web.active_games (obj sv)));
                 trace := trace sv |}).
  assert (Hlook1 : Web.active_games (obj sv1) !! gid = Some game1)
    by apply lookup_insert_eq.
  destruct (web_analyze_position_quiet sv1 (Web.board game1) analyse_reply)
    as (ev & tr & Hev & Hquiet).
  exists ev, tr. split; [|exact Hquiet].
  unfold Web.make_move, Web.parse_square_arg.
  unfold mbind at 1. unfold M_bind, get. rewrite Hfind.
  unfold mbind at 1. unfold M_bind. rewrite Hf. unfold mret at 1, M_ret.
  unfold mbind at 1. unfold M_bind. rewrite Ht. unfold mret at 1, M_ret.
  fold move. rewrite decide_True by done. rewrite Hsan.
  unfold mbind at 1. unfold M_bind.
  rewrite (update_game_run sv gid game _ Hlook).
  unfold mbind at 1. unfold M_bind.
  erewrite update_game_run by (cbn; apply lookup_insert_eq).
  cbn [obj trace Web.set_active_games Web.active_games Web.manager_engine].
  rewrite insert_insert_eq.
  unfold mbind at 1. unfold M_bind.
  lazymatch goal with
  | |- context [Web.get_game gid ?st] => change st with sv1
  end.
  rewrite (get_game_run sv1 gid game1 Hlook1).
  unfold mbind at 1. unfold M_bind.
  change (Web.board game1) with (push (Web.board game) move).
  rewrite Hover. cbn [negb]. rewrite andb_false_r. unfold mret at 1, M_ret.
  unfold mbind at 1. unfold M_bind. rewrite (get_game_run sv1 gid game1 Hlook1).
  unfold mbind at 1. unfold M_bind. rewrite Hev.
  unfold mret, M_ret. done.
Qed.


(** X14. In Play mode a move that ends the game gets no engine reply, and
    the undo request that follows still takes two moves back: it answers
    with, and leaves the session at, the position one move before the one
    the human had played from, every other session being untouched. *)
Theorem play_undo_after_final_move sv data reply rnd analyse_reply
    gid game from_idx to_idx san_move :
  Web.find_game (obj sv) (Web.mv_gameId data) = Some (gid, game) →
  Web.mv_from data ≫= parse_square = Some from_idx →
  Web.mv_to data ≫= parse_square = Some to_idx →
  let move := Web.requested_move (Web.board game) from_idx to_idx in
  move ∈ legal_moves (position (Web.board game)) →
  san (position (Web.board game)) move = Some san_move →
  Web.mode game = "Play" →
  is_game_over (push (Web.board game) move) = true →
  let sv1 := (Web.make_move data reply rnd analyse_reply sv).2 in
  (∃ body, (Web.make_move data reply rnd analyse_reply sv).1
           = Return (Ok200 body)
           ∧ Web.engineMove body = None)
  ∧ Web.undo_move (Some gid) sv1
    = (Return (Ok200 (Web.view (Web.board (Web.undo_game game))
                        (Web.move_history (Web.undo_game game)))),
       {| obj := Web.set_active_games (obj sv)
                   (<[gid := Web.undo_game game]> (Web.active_games (obj sv)));
          trace := trace sv1 |}).
Proof.
  intros Hfind Hf Ht move Hlegal Hsan Hmode Hover.
  destruct (make_move_final_run sv data reply rnd analyse_reply
              gid game from_idx to_idx san_move Hfind Hf Ht Hlegal Hsan Hover)
    as (ev & tr & Hrun & _).
  destruct (find_game_Some _ _ _ _ Hfind) as (Hid & Hne & Hlook).
  cbv zeta. rewrite Hrun. cbn [fst snd]. split; [by eexists|].
  fold move.
  set (game1 := Web.set_move_history
                  (Web.set_board game (push (Web.board game) move))
                  (Web.move_history game ++ [san_move])).
  destruct (moved_game_fields game move san_move)
    as (Hmode1 & _ & _ & Hundo). fold game1 in Hmode1, Hundo.
  set (sv1 := {| obj := Web.set_active_games (obj sv)
                          (<[gid := game1]> (Web.active_games (obj sv)));
                 trace := trace sv ++ tr |}).
  assert (Hlook1 : Web.active_games (obj sv1) !! gid = Some game1)
    by apply lookup_insert_eq.
  unfold Web.undo_move. unfold mbind at 1. unfold M_bind, get.
  unfold Web.find_game. rewrite decide_False by done. rewrite Hlook1.
  cbn [fmap option_fmap option_map].
  unfold mbind at 1. unfold M_bind.
  rewrite decide_True by (by rewrite Hmode1).
  unfold mbind at 1. unfold M_bind.
  rewrite (undo_last_run sv1 gid game1 Hlook1). rewrite Hundo.
  erewrite undo_last_run by (cbn; apply lookup_insert_eq).
  subst sv1.
  cbn [obj trace Web.set_active_games Web.active_games Web.manager_engine].
  rewrite !insert_insert_eq.
  unfold mbind at 1. unfold M_bind.
  erewrite get_game_run by (cbn; apply lookup_insert_eq).
  unfold mret, M_ret. done.
Qed.

End web_requests.

(** ** Further properties: the desktop interface *)

Section chess_gui_properties.
Context {Position : Type} `{!RulesEngine Position}.

Lemma even_index_mod (k : nat) : ((2 * k) `mod` 2 = 0)%nat.
Proof. rewrite Nat.mul_comm. apply Nat.Div0.mod_mul. Qed.

Lemma odd_index_mod (k : nat) : (S (2 * k) `mod` 2 ≠ 0)%nat.
Proof.
  replace (S (2 * k)) with (1 + k * 2)%nat by lia.
  rewrite Nat.Div0.mod_add. done.
Qed.

Lemma even_index_div (k : nat) : ((2 * k) `div` 2 + 1 = S k)%nat.
Proof. rewrite Nat.mul_comm, Nat.div_mul by done. lia. Qed.

Lemma move_pairs_loop_even (n : nat) : ∀ (moves : list string) k acc,
  (length moves ≤ n)%nat →
  move_pairs_loop (2 * k) moves acc
  = Return (acc ++ numbered_lines (S k) moves).
Proof.
  induction n as [|n IH]; intros moves k acc Hlen.
  - destruct moves; [|cbn in Hlen; lia]. cbn. by rewrite app_nil_r.
  - destruct moves as [|w [|b rest]].
    + cbn. by rewrite app_nil_r.
    + cbn [move_pairs_loop numbered_lines].
      rewrite decide_True by apply even_index_mod.
      by rewrite even_index_div.
    + cbn [move_pairs_loop numbered_lines].
      rewrite decide_True by apply even_index_mod.
      rewrite decide_False by apply odd_index_mod.
      rewrite even_index_div.
      rewrite last_snoc, list_pop_snoc.
      replace (S (S (2 * k))) with (2 * S k)%nat by lia.
      rewrite IH by (cbn in Hlen; lia).
      by rewrite <- app_assoc.
Qed.

Lemma length_numbered_lines (moves : list string) : ∀ n,
  length (numbered_lines n moves) = ((length moves + 1) `div` 2)%nat.
Proof.
  induction moves as [moves IH] using (induction_ltof1 _ length).
  unfold ltof in IH. intros n.
  destruct moves as [|w [|b rest]]; [done..|].
  cbn [numbered_lines length]. rewrite IH by (cbn; lia).
  replace (S (S (length rest)) + 1)%nat with (length rest + 1 + 1 * 2)%nat by lia.
  rewrite Nat.div_add by lia. lia.
Qed.

(** X15. The move list of the desktop interface never fails and shows
    one line per full move: line [n] is the number [n], a dot, White's
    move and, when it was played, Black's; so a history of [k] moves gives
    [(k + 1) / 2] lines. *)
Theorem move_pairs_are_numbered_lines (move_history_ : list string) :
  move_pairs move_history_ = Return (numbered_lines 1 move_history_)
  ∧ length (numbered_lines 1 move_history_)
    = ((length move_history_ + 1) `div` 2)%nat.
Proof.
  split; [|apply length_numbered_lines].
  unfold move_pairs.
  exact (move_pairs_loop_even (length move_history_) move_history_ 0 []
           (Nat.le_refl _)).
Qed.





Lemma div_cell (size c d : Z) :
  (0 < size → 0 ≤ d < size → (c * size + d) `div` size = c)%Z.
Proof.
  intros Hs Hd. rewrite Z.add_comm, Z.div_add by lia.
  rewrite Z.div_small by lia. lia.
Qed.

Lemma half_in_cell (size : Z) : (0 < size → 0 ≤ size `div` 2 < size)%Z.
Proof. intros Hs. split; [apply Z.div_pos; lia|apply Z.div_lt; lia]. Qed.

Lemma square_of_file_rank (square : Square) :
  Z.of_nat square
  = (Z.of_nat (square_rank square) * 8 + Z.of_nat (square_file square))%Z.
Proof.
  unfold square_rank, square_file.
  pose proof (Nat.div_mod_eq square 8) as E.
  set (r := Nat.div square 8) in *. set (f := Nat.modulo square 8) in *.
  clearbody r f. lia.
Qed.

(** X17. While the board is not flipped the click handler and the
    drawing agree: a click at the point where the piece of a square is
    drawn, and a click anywhere inside the cell drawn for a square, select
    that square. *)
Theorem click_selects_the_drawn_square (square_size : Z) :
  (0 < square_size)%Z →
  (∀ square : Square,
     clicked_square false square_size
       (piece_xy false square_size square).1
       (piece_xy false square_size square).2
     = Z.of_nat square)
  ∧ (∀ row col dx dy : Z,
       (0 ≤ dx < square_size)%Z → (0 ≤ dy < square_size)%Z →
       clicked_square false square_size
         ((cell_xy false square_size row col).1 + dx)
         ((cell_xy false square_size row col).2 + dy)
       = cell_square false row col).
Proof.
  intros Hs. pose proof (half_in_cell _ Hs) as Hhalf. split.
  - intros square. unfold clicked_square, piece_xy, chess_square. cbn [fst snd].
    rewrite !div_cell by done. rewrite (square_of_file_rank square). lia.
  - intros row col dx dy Hdx Hdy.
    unfold clicked_square, cell_xy, cell_square, chess_square. cbn [fst snd].
    rewrite !div_cell by done. lia.
Qed.

(** X18. Once the board is flipped the click handler and the drawing
    disagree on every square: a click at the point where the piece of a
    square is drawn selects the square of the same file on the mirrored
    rank, and a click inside the cell drawn for a square selects the
    square of the same rank on the mirrored file; neither is ever the
    square itself. *)
Theorem flipped_click_selects_a_mirrored_square (square_size : Z) :
  (0 < square_size)%Z →
  (∀ square : Square,
     clicked_square true square_size
       (piece_xy true square_size square).1
       (piece_xy true square_size square).2
     = chess_square (Z.of_nat (square_file square))
         (7 - Z.of_nat (square_rank square))
     ∧ clicked_square true square_size
         (piece_xy true square_size square).1
         (piece_xy true square_size square).2
       ≠ Z.of_nat square)
  ∧ (∀ row col dx dy : Z,
       (0 ≤ dx < square_size)%Z → (0 ≤ dy < square_size)%Z →
       cell_square true row col = chess_square col (7 - row)
       ∧ clicked_square true square_size
           ((cell_xy true square_size row col).1 + dx)
           ((cell_xy true square_size row col).2 + dy)
         = chess_square (7 - col) (7 - row)
       ∧ clicked_square true square_size
           ((cell_xy true square_size row col).1 + dx)
           ((cell_xy true square_size row col).2 + dy)
         ≠ cell_square true row col).
Proof.
  intros Hs. pose proof (half_in_cell _ Hs) as Hhalf. split.
  - intros square. unfold clicked_square, piece_xy, chess_square. cbn [fst snd].
    rewrite !div_cell by done.
    rewrite (square_of_file_rank square). lia.
  - intros row col dx dy Hdx Hdy.
    unfold clicked_square, cell_xy, cell_square, chess_square. cbn [fst snd].
    rewrite !div_cell by done. lia.
Qed.

End chess_gui_properties.

(** ** Further properties: the coach comments *)

Section coach_properties.
Context {Position : Type} `{!RulesEngine Position} `{!CoachRules Position}.

Lemma reads_as_length (moves : list Move) : ∀ (p : Position) sans,
  Web.reads_as p moves sans → length moves = length sans.
Proof.
  induction moves as [|m moves IH]; intros p [|move_san sans] H; try done.
  destruct H as [_ H]. cbn. f_equal. by eapply IH.
Qed.

Lemma replay_reads_as (moves : list Move) : ∀ (b : Board Position) sans i,
  Web.reads_as (position b) moves sans →
  Web.replay (take i sans) b = foldl push b (take i moves).
Proof.
  induction moves as [|m moves IH]; intros b [|move_san sans] i H; try done.
  - by destruct i.
  - destruct H as [Hparse H]. destruct i as [|i]; [done|].
    cbn [take Web.replay foldl]. rewrite Hparse. by apply IH.
Qed.

Lemma reads_as_lookup (moves : list Move) : ∀ (b : Board Position) sans i move,
  Web.reads_as (position b) moves sans →
  moves !! i = Some move →
  ∃ move_san,
    sans !! i = Some move_san
    ∧ parse_san (position (foldl push b (take i moves))) move_san = Some move.
Proof.
  induction moves as [|m moves IH]; intros b [|move_san sans] i move H Hi;
    try done.
  destruct H as [Hparse H]. destruct i as [|i].
  - injection Hi as <-. by exists move_san.
  - cbn [take foldl lookup]. by apply IH.
Qed.

(** X19. The coach route comments on the move that was played, in the
    position it was played in: when the history of the session reads back,
    from the start position, as the moves [moves], a request for the
    index [i] is answered with the comment generated for the [i]-th move
    on the board reached by the moves before it; a request without an
    index, or with the index [-1], is answered like a request for the
    last move.  The server is left as it is. *)
Theorem coach_comment_replays_history
    (sv : St (@Web.Server Position)) o gid game moves i move :
  Web.find_game (obj sv) o = Some (gid, game) →
  Web.reads_as start_position moves (Web.move_history game) →
  moves !! i = Some move →
  Web.get_coach_comment
    {| Web.co_gameId := o; Web.co_moveIdx := Some (Z.of_nat i) |} sv
  = (Return (Ok200 (Web.generate_coach_comment
                      (foldl push new_board (take i moves)) move)), sv)
  ∧ (S i = length moves →
     Web.get_coach_comment
       {| Web.co_gameId := o; Web.co_moveIdx := None |} sv
     = (Return (Ok200 (Web.generate_coach_comment
                         (foldl push new_board (take i moves)) move)), sv)
     ∧ Web.get_coach_comment
         {| Web.co_gameId := o; Web.co_moveIdx := Some (-1)%Z |} sv
       = (Return (Ok200 (Web.generate_coach_comment
                           (foldl push new_board (take i moves)) move)), sv)).
Proof.
  intros Hfind Hreads Hi.
  pose proof (reads_as_length _ _ _ Hreads) as Hlen.
  pose proof (lookup_lt_Some _ _ _ Hi) as Hlt.
  destruct (reads_as_lookup moves new_board _ i move Hreads Hi)
    as (move_san & Hsan & Hparse).
  assert (Hne : Web.move_history game ≠ []).
  { intros E. rewrite E in Hlen. cbn in Hlen. lia. }
  assert (Hrun : ∀ idx : Z,
    (if decide (default (-1)%Z (Some idx) = (-1)%Z ∧ Web.move_history game ≠ [])
     then (Z.of_nat (length (Web.move_history game)) - 1)%Z
     else default (-1)%Z (Some idx)) = Z.of_nat i →
    Web.get_coach_comment
      {| Web.co_gameId := o; Web.co_moveIdx := Some idx |} sv
    = (Return (Ok200 (Web.generate_coach_comment
                        (foldl push new_board (take i moves)) move)), sv)).
  { intros idx Hidx. unfold Web.get_coach_comment.
    unfold mbind, M_bind, get.
    cbn [Web.co_gameId Web.co_moveIdx obj]. rewrite Hfind.
    rewrite Hidx. rewrite decide_False by (intros [?|[?|?]]; [lia|done|lia]).
    rewrite Nat2Z.id, Hsan.
    rewrite (replay_reads_as moves new_board _ i Hreads), Hparse.
    by destruct sv. }
  split.
  - apply Hrun. simpl. rewrite decide_False by (intros [? _]; lia).
    done.
  - intros Hlast.
    assert (Hminus : Web.get_coach_comment
              {| Web.co_gameId := o; Web.co_moveIdx := Some (-1)%Z |} sv
            = (Return (Ok200 (Web.generate_coach_comment
                                (foldl push new_board (take i moves)) move)), sv)).
    { apply Hrun. simpl. rewrite decide_True by done. lia. }
    split; exact Hminus.
Qed.




End coach_properties.

(** ** The further properties on concrete games *)

Section more_concrete_games.
Import Demo.

Local Ltac compute_elem :=
  first [ apply (bool_decide_unpack _); vm_compute; exact I
        | apply (bool_decide_eq_false_1 _); vm_compute; reflexivity ].

#[local] Instance session_wf_dec (g : @Web.Game Mini.Position) :
  Decision (Web.session_wf g).
Proof. unfold Web.session_wf. apply _. Defined.

Lemma all_wf_computed (a : gmap string (@Web.Game Mini.Position)) :
  bool_decide (map_Forall (λ _ g, Web.session_wf g) a) = true → Web.all_wf a.
Proof. intros H. exact (bool_decide_eq_true_1 _ H). Qed.

(** Without an engine the manager draws a legal first move and sends no
    request. *)
Lemma manager_services_witness :
  ∃ r tr,
    Web.get_engine_move new_board 3 PlayNone 0 server_no_engine
    = (Return r, {| obj := obj server_no_engine;
                    trace := trace server_no_engine ++ tr |})
    ∧ count_plays tr = 0.
Proof.
  destruct (manager_services_never_raise (Position:=Mini.Position))
    as (Hmove & _ & _).
  destruct (Hmove server_no_engine new_board 3%Z PlayNone 0)
    as (r & tr & Hrun & _ & Hnone & _).
  exists r, tr. split; [exact Hrun|]. apply Hnone. reflexivity.
Defined.

(** The engine suggests the illegal e2-e5: what the call returns is a legal
    move all the same. *)
Lemma returns_legal_move_witness :
  (get_engine_move (PlayResult (Some Mini.e2e5)) 0 game0).1
  = Return (Some (Mini.mk 1 16))
  ∧ Mini.mk 1 16 ∈ legal_moves (position (board (obj game0))).
Proof.
  assert (Hrun : (get_engine_move (PlayResult (Some Mini.e2e5)) 0 game0).1
                 = Return (Some (Mini.mk 1 16))) by (vm_compute; reflexivity).
  split; [exact Hrun|].
  refine (proj1 (get_engine_move_returns_legal_move game0
                   (PlayResult (Some Mini.e2e5)) 0 _) _ Hrun).
  intros m. cbn [game0 init obj _move_cache set_engine].
  rewrite lookup_empty. discriminate.
Defined.

(** An [EngineError] of the engine comes out of the call. *)
Lemma error_handling_witness :
  (get_engine_move (PlayRaises EngineError) 0 game0).1 = Raise EngineError.
Proof.
  destruct (get_engine_move_error_handling game0 0 EngineError)
    as [_ Hraise].
  - reflexivity.
  - reflexivity.
  - by eexists.
  - by rewrite Hraise.
Defined.

(** e2-e4 played and taken back on a fresh game. *)
Lemma make_move_then_undo_witness :
  (undo_move (make_move Mini.e2e4 game0).2).1 = Return true
  ∧ board (obj (undo_move (make_move Mini.e2e4 game0).2).2) = board (obj game0)
  ∧ last_move (obj (undo_move (make_move Mini.e2e4 game0).2).2)
    = Some Mini.e2e4.
Proof.
  destruct (make_move_then_undo_move game0 Mini.e2e4 "e4") as [_ Hundo].
  - simpl. compute_elem.
  - reflexivity.
  - rewrite Hundo. split; [reflexivity|]. split; reflexivity.
Defined.

(** The sessions after e2-e4, then after the answer e7-e5. *)
Lemma routes_keep_history_witness :
  Web.all_wf (Web.active_games (obj server_after_e4))
  ∧ Web.all_wf
      (Web.active_games
         (obj (Web.make_move (move_request gid "e7" "e5") (PlayResult None) 0
                 (AnalyseInfo None) server_after_e4).2)).
Proof.
  assert (H : Web.all_wf (Web.active_games (obj server_after_e4))).
  { apply all_wf_computed. vm_compute. reflexivity. }
  split; [exact H|].
  destruct (routes_keep_history_in_step (Position:=Mini.Position))
    as [Hmove _].
  exact (Hmove _ _ _ _ server_after_e4 H).
Defined.

(** An identifier that is not registered. *)
Lemma unknown_game_witness :
  Web.undo_move (Some "nope") server_practice
  = (Return (Err400 "Invalid game ID"), server_practice).
Proof.
  refine (proj1 (proj2 (proj2
            (unknown_game_is_rejected server_practice (Some "nope") _)))).
  right. right. exists "nope". split; [reflexivity|].
  vm_compute. reflexivity.
Defined.

(** e2-e4 in the Practice session: no engine move in the answer, although
    the engine would have answered e7-e5. *)
Lemma practice_move_witness :
  ∃ body,
    (Web.make_move (move_request gid "e2" "e4") (PlayResult (Some Mini.e7e5)) 0
       (AnalyseInfo None) server_practice).1 = Return (Ok200 body)
    ∧ Web.engineMove body = None
    ∧ Web.moveHistory (Web.mr_state body) = ["e4"].
Proof.
  destruct (practice_move_gets_no_reply server_practice
              (move_request gid "e2" "e4") (PlayResult (Some Mini.e7e5)) 0
              (AnalyseInfo None) gid
              (Web.fresh_game "Practice" true new_board) 12 28 "e4")
    as (ev & tr & Hrun & _).
  - vm_compute. reflexivity.
  - reflexivity.
  - reflexivity.
  - compute_elem.
  - vm_compute. reflexivity.
  - vm_compute. discriminate.
  - rewrite Hrun. eexists. split; [reflexivity|].
    split; [reflexivity|]. vm_compute. reflexivity.
Defined.

(** e2-e4 and its undo in the Practice session. *)
Lemma practice_move_then_undo_witness :
  let sv1 := (Web.make_move (move_request gid "e2" "e4") (PlayResult None) 0
                (AnalyseInfo None) server_practice).2 in
  (Web.undo_move (Some gid) sv1).1
  = Return (Ok200 (Web.view new_board []))
  ∧ obj (Web.undo_move (Some gid) sv1).2 = obj server_practice.
Proof.
  cbv zeta.
  rewrite (practice_move_then_undo server_practice
             (move_request gid "e2" "e4") (PlayResult None) 0
             (AnalyseInfo None) gid
             (Web.fresh_game "Practice" true new_board) 12 28 "e4").
  - split; reflexivity.
  - vm_compute. reflexivity.
  - reflexivity.
  - reflexivity.
  - compute_elem.
  - vm_compute. reflexivity.
  - vm_compute. discriminate.
Defined.

(** A hint request in the Practice session, the engine answering Nf3. *)
Lemma get_hint_witness :
  ∃ tr,
    (∃ hint,
        Web.get_hint (Some gid) (PlayResult (Some Mini.g1f3)) 0 server_practice
        = (Return (Ok200 hint),
           {| obj := Web.set_active_games (obj server_practice)
                       (<[gid := Web.set_last_engine_hint
                                   (Web.fresh_game "Practice" true new_board)
                                   (Some hint)]>
                          (Web.active_games (obj server_practice)));
              trace := trace server_practice ++ tr |}))
    ∨ Web.get_hint (Some gid) (PlayResult (Some Mini.g1f3)) 0 server_practice
      = (Return (Err400 "Could not generate hint"),
         {| obj := obj server_practice; trace := trace server_practice ++ tr |}).
Proof.
  apply get_hint_stores_the_hint. vm_compute. reflexivity.
Defined.

(** e2-e4 in the Play session, the engine answering e7-e5. *)
Lemma play_move_witness :
  ∃ body,
    (Web.make_move (move_request gid "e2" "e4") (PlayResult (Some Mini.e7e5)) 0
       (AnalyseInfo None) server_play).1 = Return (Ok200 body)
    ∧ Web.engineMove body = Some ("e7", "e5", "e5")
    ∧ Web.moveHistory (Web.mr_state body) = ["e4"; "e5"].
Proof.
  destruct (play_move_is_answered server_play
              (move_request gid "e2" "e4") (PlayResult (Some Mini.e7e5)) 0
              (AnalyseInfo None) gid
              (Web.fresh_game "Play" true new_board) 12 28 "e4"
              Mini.e7e5 "e5")
    as (ev & tr & Hrun & _).
  - vm_compute. reflexivity.
  - reflexivity.
  - reflexivity.
  - compute_elem.
  - vm_compute. reflexivity.
  - reflexivity.
  - vm_compute. reflexivity.
  - vm_compute. reflexivity.
  - vm_compute. reflexivity.
  - reflexivity.
  - vm_compute. reflexivity.
  - rewrite Hrun. eexists. split; [reflexivity|].
    split; vm_compute; reflexivity.
Defined.

(** The exchange e2-e4 e7-e5 and its undo in the Play session. *)
Lemma play_exchange_then_undo_witness :
  let sv2 := (Web.make_move (move_request gid "e2" "e4")
                (PlayResult (Some Mini.e7e5)) 0 (AnalyseInfo None)
                server_play).2 in
  (Web.undo_move (Some gid) sv2).1 = Return (Ok200 (Web.view new_board []))
  ∧ obj (Web.undo_move (Some gid) sv2).2 = obj server_play.
Proof.
  cbv zeta.
  rewrite (play_exchange_then_undo server_play
             (move_request gid "e2" "e4") (PlayResult (Some Mini.e7e5)) 0
             (AnalyseInfo None) gid
             (Web.fresh_game "Play" true new_board) 12 28 "e4"
             Mini.e7e5 "e5").
  - split; reflexivity.
  - vm_compute. reflexivity.
  - reflexivity.
  - reflexivity.
  - compute_elem.
  - vm_compute. reflexivity.
  - reflexivity.
  - vm_compute. reflexivity.
  - vm_compute. reflexivity.
  - vm_compute. reflexivity.
  - reflexivity.
  - vm_compute. reflexivity.
Defined.

(** e2-e4 leaves Black without a move: no engine reply, and the undo gives
    the position before the pawn move. *)
Lemma play_undo_after_final_move_witness :
  let sv1 := (Web.make_move (move_request gid "e2" "e4")
                (PlayResult (Some Mini.e7e5)) 0 (AnalyseInfo None)
                server_ending).2 in
  (∃ body, (Web.make_move (move_request gid "e2" "e4")
              (PlayResult (Some Mini.e7e5)) 0 (AnalyseInfo None)
              server_ending).1 = Return (Ok200 body)
           ∧ Web.engineMove body = None)
  ∧ (Web.undo_move (Some gid) sv1).1
    = Return (Ok200 (Web.view (Web.board ending_game) [])).
Proof.
  destruct (play_undo_after_final_move server_ending
              (move_request gid "e2" "e4") (PlayResult (Some Mini.e7e5)) 0
              (AnalyseInfo None) gid ending_game 12 28 "e4")
    as [Hbody Hundo].
  - vm_compute. reflexivity.
  - reflexivity.
  - reflexivity.
  - compute_elem.
  - vm_compute. reflexivity.
  - reflexivity.
  - vm_compute. reflexivity.
  - cbv zeta. split; [exact Hbody|]. rewrite Hundo. reflexivity.
Defined.


(** Squares of 80 pixels: a click on the pawn of e2, and a click in the
    lower right corner of the cell of e2. *)
Lemma click_witness :
  clicked_square false 80 (piece_xy false 80 12).1 (piece_xy false 80 12).2
  = 12%Z
  ∧ clicked_square false 80
      ((cell_xy false 80 1 4).1 + 79) ((cell_xy false 80 1 4).2 + 79)
    = cell_square false 1 4.
Proof.
  destruct (click_selects_the_drawn_square 80) as [Hpiece Hcell]; [lia|].
  split; [exact (Hpiece 12%nat)|apply Hcell; lia].
Defined.

(** The same two clicks on the flipped board select e7 and d2. *)
Lemma flipped_click_witness :
  clicked_square true 80 (piece_xy true 80 12).1 (piece_xy true 80 12).2
  = 52%Z
  ∧ cell_square true 6 4 = 12%Z
  ∧ clicked_square true 80
      ((cell_xy true 80 6 4).1 + 79) ((cell_xy true 80 6 4).2 + 79)
    = 11%Z.
Proof.
  destruct (flipped_click_selects_a_mirrored_square 80) as [Hpiece Hcell];
    [lia|].
  split; [exact (proj1 (Hpiece 12%nat))|].
  destruct (Hcell 6 4 79 79)%Z as (Hsq & Hclick & _); [lia..|].
  split; [exact Hsq|exact Hclick].
Defined.

(** The coach comments on 1. e4 in the Practice session. *)
Lemma coach_comment_witness :
  (Web.get_coach_comment
     {| Web.co_gameId := Some gid; Web.co_moveIdx := Some 0%Z |}
     server_after_e4).1
  = Return (Ok200 "Good central control! Controlling the center is important in chess.")
  ∧ (Web.get_coach_comment
       {| Web.co_gameId := Some gid; Web.co_moveIdx := None |}
       server_after_e4).2
    = server_after_e4.
Proof.
  destruct (session_of server_after_e4) as [game|] eqn:E;
    [|by vm_compute in E].
  assert (Hh : Web.move_history game = ["e4"]).
  { vm_compute in E. by injection E as <-. }
  destruct (coach_comment_replays_history server_after_e4 (Some gid) gid game
              [Mini.e2e4] 0 Mini.e2e4) as [Hidx Hlast].
  - unfold Web.find_game. rewrite decide_False by done.
    unfold session_of in E. by rewrite E.
  - rewrite Hh. split; [vm_compute; reflexivity|exact I].
  - reflexivity.
  - split.
    + change (Z.of_nat 0) with 0%Z in Hidx.
      rewrite Hidx. vm_compute. reflexivity.
    + destruct Hlast as [Hnone _]; [reflexivity|].
      rewrite Hnone. reflexivity.
Defined.



End more_concrete_games.
